(** * LocalCache: an in-process keyed store with per-key expiration

    A shallow embedding of [src/index.ts] (class [LocalCache]) and the
    properties of its operations.

    Modelling decisions, all taken from the TypeScript source:

    - JavaScript values are either primitives (compared by value) or
      references to objects that live in the host heap and are compared by
      identity.  The heap is a list of objects, a reference is an index.
    - A [number] is an integral double, as a [Z], or one of the two
      infinities; sums are rounded as sums of doubles are.  Fractions and
      NaN are outside the model.
    - A string is a [string] of Rocq: a sequence of code units below 256.
    - The private field [data] is a [Map] from keys to entry objects.  Entry
      objects are created inside the class only, are never handed out and
      are never stored under two keys, so a field write [data.ttl = ...] is
      modelled as replacing the entry stored at that key.  The map is a
      [gmap]: insertion order of keys is not recorded.
    - [setTimeout] and [clearTimeout] act on the table of timers of the host
      event loop.  A timer handle is an index in that table and is never
      reused.  Time itself is not modelled: any pending timer may fire. *)

From Stdlib Require Import ZArith Ascii String.
From stdpp Require Import gmap strings list fin_maps.

Local Open Scope string_scope.
Local Open Scope list_scope.
Local Open Scope Z_scope.

(** ** Errors *)

(** [enum CacheErrors]: the three messages of the source. *)
Module CacheErrors.
Definition InvalidKeyType : string := "invalid type of key-value to use this method!".
Definition OutOfIndex : string := "out-of array-index".
Definition InvalidKey : string := "invalid-key".
End CacheErrors.

(** [new Error(message)] *)
Inductive Error : Type :=
| MkError (message : string).

(** ** Values and the host heap *)

Definition loc := nat.

(** [type CacheData]: primitives by value, everything else by reference. *)
Inductive CacheData : Type :=
| VString (s : string)
| VNumber (n : Z)
| VInfinity (negative : bool)
| VBoolean (b : bool)
| VObject (l : loc).
Arguments VObject l%_nat.

(** What a reference can point to: [Buffer], a plain object ([Record]),
    a [Map], a [Set] (members in insertion order) or an array.  An array
    carries its elements and its properties that are not indices (a write
    [a[-1] = v] creates the property ["-1"] and leaves the elements alone). *)
Inductive Obj : Type :=
| OBuffer (bytes : list Z)
| ORecord (fields : gmap string CacheData)
| OMap (entries : gmap string CacheData)
| OSet (members : list CacheData)
| OArray (elems : list CacheData) (props : gmap Z CacheData).

(** ** Entries, timers and the state *)

(** [{ ttl: number; value: CacheData; timeout?: NodeJS.Timeout }] *)
Record Entry : Type := mkEntry {
  ttl : Z;
  value : CacheData;
  timeout : option nat
}.

Inductive TimerStatus : Type := Pending | Cleared | Fired.

(** A timer of the event loop.  Both callbacks of the source,
    [() => this.del(key)] and [() => this.data.delete(key)], delete one key:
    the callback is recorded by that key. *)
Record Timer : Type := mkTimer {
  cb_key : string;
  delay_ms : Z;
  status : TimerStatus
}.

Record State : Type := mkState {
  _TTL : Z;
  data : gmap string Entry;
  heap : list Obj;
  timers : list Timer
}.

(** The result of a call: it returns or it throws, and leaves a state. *)
Inductive Outcome (A : Type) : Type :=
| Returns (a : A) (s : State)
| Throws (e : Error) (s : State).
Arguments Returns {A} a s.
Arguments Throws {A} e s.

Definition M (A : Type) : Type := State -> Outcome A.

Definition ret {A} (a : A) : M A := fun s => Returns a s.

Definition bind {A B} (m : M A) (f : A -> M B) : M B :=
  fun s => match m s with
           | Returns a s' => f a s'
           | Throws e s' => Throws e s'
           end.

Definition throw {A} (msg : string) : M A := fun s => Throws (MkError msg) s.

Notation "x <- c1 ;; c2" := (bind c1 (fun x => c2))
  (at level 100, c1 at next level, right associativity).
Notation "c1 ;;; c2" := (bind c1 (fun _ => c2))
  (at level 100, right associativity).

Definition state_of {A} (o : Outcome A) : State :=
  match o with Returns _ s => s | Throws _ s => s end.

(** ** State updates *)

Definition with_data (f : gmap string Entry -> gmap string Entry) (s : State) : State :=
  mkState (_TTL s) (f (data s)) (heap s) (timers s).

Definition with_heap (f : list Obj -> list Obj) (s : State) : State :=
  mkState (_TTL s) (data s) (f (heap s)) (timers s).

Definition with_timers (f : list Timer -> list Timer) (s : State) : State :=
  mkState (_TTL s) (data s) (heap s) (f (timers s)).

(** [new X()]: a fresh object at the end of the heap. *)
Definition alloc (o : Obj) (s : State) : loc * State :=
  (length (heap s), with_heap (fun h => h ++ [o]) s).

(** In-place mutation of the object behind a reference. *)
Definition store_obj (l : loc) (o : Obj) (s : State) : State :=
  with_heap (fun h => <[l := o]> h) s.

(** The longest delay of a timer of Node, in milliseconds: 2^31 - 1. *)
Definition TIMEOUT_MAX : Z := 2147483647.

(** The delay that Node gives a timer: the delay asked for when it is from
    1 to [TIMEOUT_MAX], and 1 otherwise. *)
Definition Timeout_after (delay : Z) : Z :=
  if (1 <=? delay) && (delay <=? TIMEOUT_MAX) then delay else 1.

(** [setTimeout(() => delete key, delay)]: a new pending timer; its handle. *)
Definition setTimeout (key : string) (delay : Z) (s : State) : nat * State :=
  (length (timers s),
   with_timers (fun ts => ts ++ [mkTimer key (Timeout_after delay) Pending]) s).

(** [clearTimeout(handle)]: a pending timer is cancelled; [undefined], a
    fired or an already cancelled timer: nothing happens. *)
Definition clearTimeout (handle : option nat) (s : State) : State :=
  match handle with
  | None => s
  | Some id =>
      match timers s !! id with
      | Some (mkTimer k d Pending) => with_timers (fun ts => <[id := mkTimer k d Cleared]> ts) s
      | _ => s
      end
  end.

(** [value instanceof Map], [value instanceof Set], [Array.isArray(value)] *)
Definition instanceof_Map (s : State) (v : CacheData) : bool :=
  match v with
  | VObject l => match heap s !! l with Some (OMap _) => true | _ => false end
  | _ => false
  end.

Definition instanceof_Set (s : State) (v : CacheData) : bool :=
  match v with
  | VObject l => match heap s !! l with Some (OSet _) => true | _ => false end
  | _ => false
  end.

Definition Array_isArray (s : State) (v : CacheData) : bool :=
  match v with
  | VObject l => match heap s !! l with Some (OArray _ _) => true | _ => false end
  | _ => false
  end.

(** ** Methods of the built-in objects, through the heap *)

(** [SameValueZero], the equality of [Set.prototype.add] and [has]:
    primitives by value, objects by identity. *)
Definition SameValueZero (x y : CacheData) : bool :=
  match x, y with
  | VString a, VString b => bool_decide (a = b)
  | VNumber a, VNumber b => bool_decide (a = b)
  | VInfinity a, VInfinity b => bool_decide (a = b)
  | VBoolean a, VBoolean b => bool_decide (a = b)
  | VObject a, VObject b => bool_decide (a = b)
  | _, _ => false
  end.

(** [map.set(field, v)] *)
Definition Map_set (m : CacheData) (field : string) (v : CacheData) (s : State) : State :=
  match m with
  | VObject l =>
      match heap s !! l with
      | Some (OMap es) => store_obj l (OMap (<[field := v]> es)) s
      | _ => s
      end
  | _ => s
  end.

(** [Object.fromEntries(map.entries())]: the fields of the new object. *)
Definition Map_entries (m : CacheData) (s : State) : gmap string CacheData :=
  match m with
  | VObject l => match heap s !! l with Some (OMap es) => es | _ => ∅ end
  | _ => ∅
  end.

(** [set.has(x)] *)
Definition Set_has (st : CacheData) (x : CacheData) (s : State) : bool :=
  match st with
  | VObject l =>
      match heap s !! l with
      | Some (OSet ms) => existsb (SameValueZero x) ms
      | _ => false
      end
  | _ => false
  end.

(** [set.add(x)]: appended unless a member is the same value already. *)
Definition Set_add (st : CacheData) (x : CacheData) (s : State) : State :=
  match st with
  | VObject l =>
      match heap s !! l with
      | Some (OSet ms) =>
          if existsb (SameValueZero x) ms then s else store_obj l (OSet (ms ++ [x])) s
      | _ => s
      end
  | _ => s
  end.

(** [array.length] *)
Definition Array_length (a : CacheData) (s : State) : Z :=
  match a with
  | VObject l =>
      match heap s !! l with
      | Some (OArray es _) => Z.of_nat (length es)
      | _ => 0
      end
  | _ => 0
  end.

(** [array.push(...values)] *)
Definition Array_push (a : CacheData) (values : list CacheData) (s : State) : State :=
  match a with
  | VObject l =>
      match heap s !! l with
      | Some (OArray es ps) => store_obj l (OArray (es ++ values) ps) s
      | _ => s
      end
  | _ => s
  end.

(** [array.pop()], its result dropped: the last element goes; an empty
    array stays empty. *)
Definition Array_pop (a : CacheData) (s : State) : State :=
  match a with
  | VObject l =>
      match heap s !! l with
      | Some (OArray es ps) => store_obj l (OArray (removelast es) ps) s
      | _ => s
      end
  | _ => s
  end.

(** [array[index] = v] for an index below the length: an element is
    replaced for an index from 0 on, the property named by the index is
    written for a negative one.  (At or beyond the length JavaScript would
    extend the array; the one caller, [lSet], has thrown before that.) *)
Definition Array_put (a : CacheData) (index : Z) (v : CacheData) (s : State) : State :=
  match a with
  | VObject l =>
      match heap s !! l with
      | Some (OArray es ps) =>
          if index <? 0 then store_obj l (OArray es (<[index := v]> ps)) s
          else store_obj l (OArray (<[Z.to_nat index := v]> es) ps) s
      | _ => s
      end
  | _ => s
  end.

(** [Array.prototype.splice(start, deleteCount)] on the elements: a
    negative start counts from the end and is clamped at 0, a start beyond
    the length is clamped at the length, the count is clamped to what is
    left. *)
Definition splice (es : list CacheData) (start deleteCount : Z) : list CacheData :=
  let len := Z.of_nat (length es) in
  let actualStart := if start <? 0 then Z.max (len + start) 0 else Z.min start len in
  let actualDeleteCount := Z.min (Z.max deleteCount 0) (len - actualStart) in
  take (Z.to_nat actualStart) es ++ drop (Z.to_nat (actualStart + actualDeleteCount)) es.

(** [array.splice(start, deleteCount)], its result dropped. *)
Definition Array_splice (a : CacheData) (start deleteCount : Z) (s : State) : State :=
  match a with
  | VObject l =>
      match heap s !! l with
      | Some (OArray es ps) => store_obj l (OArray (splice es start deleteCount) ps) s
      | _ => s
      end
  | _ => s
  end.

(** An integer rounded to the nearest double, ties to the even mantissa:
    up to 2^53 every integer is a double; above, a double has a mantissa
    [q] of 53 bits and an exponent [e]. *)
Definition round_double (x : Z) : Z :=
  let a := Z.abs x in
  if a <=? 2 ^ 53 then x
  else
    let e := Z.log2 a - 52 in
    let q := a / 2 ^ e in
    let r := a mod 2 ^ e in
    let half := 2 ^ (e - 1) in
    let q' := if r <? half then q
              else if half <? r then q + 1
              else if Z.even q then q else q + 1 in
    Z.sgn x * (q' * 2 ^ e).

(** [a + b] on two integral doubles: the sum rounded to a double, an
    infinity when that is 2^1024 or more in magnitude. *)
Definition Number_add (a b : Z) : CacheData :=
  let x := round_double (a + b) in
  if Z.abs x <? 2 ^ 1024 then VNumber x else VInfinity (x <? 0).

(** [a === b]: primitives by value, objects by identity.  (It differs
    from [SameValueZero] on NaN only, which is outside the model.) *)
Definition StrictEquals (x y : CacheData) : bool :=
  match x, y with
  | VString a, VString b => bool_decide (a = b)
  | VNumber a, VNumber b => bool_decide (a = b)
  | VInfinity a, VInfinity b => bool_decide (a = b)
  | VBoolean a, VBoolean b => bool_decide (a = b)
  | VObject a, VObject b => bool_decide (a = b)
  | _, _ => false
  end.

(** [map.get(field)]: [undefined] is [None]. *)
Definition Map_get (m : CacheData) (field : string) (s : State) : option CacheData :=
  match m with
  | VObject l => match heap s !! l with Some (OMap es) => es !! field | _ => None end
  | _ => None
  end.

(** [map.has(field)] *)
Definition Map_has (m : CacheData) (field : string) (s : State) : bool :=
  match m with
  | VObject l =>
      match heap s !! l with
      | Some (OMap es) => bool_decide (is_Some (es !! field))
      | _ => false
      end
  | _ => false
  end.

(** [map.delete(field)], its result dropped. *)
Definition Map_delete (m : CacheData) (field : string) (s : State) : State :=
  match m with
  | VObject l =>
      match heap s !! l with
      | Some (OMap es) => store_obj l (OMap (delete field es)) s
      | _ => s
      end
  | _ => s
  end.

(** [map.size] *)
Definition Map_size (m : CacheData) (s : State) : Z :=
  match m with
  | VObject l =>
      match heap s !! l with
      | Some (OMap es) => Z.of_nat (size es)
      | _ => 0
      end
  | _ => 0
  end.

(** [Array.from(map.keys())] and [Array.from(map.values())]: the elements
    of the new array.  Both go through the entries in the same order (the
    order of insertion in JavaScript, which the model does not record). *)
Definition Map_keys (m : CacheData) (s : State) : list string :=
  (map_to_list (Map_entries m s)).*1.

Definition Map_values (m : CacheData) (s : State) : list CacheData :=
  (map_to_list (Map_entries m s)).*2.

(** [Array.prototype.slice(start, end)] on the elements: a negative bound
    counts from the end and is clamped at 0, a bound beyond the length is
    clamped at the length, and nothing is taken when the end is not after
    the start. *)
Definition slice (es : list CacheData) (start end_ : Z) : list CacheData :=
  let len := Z.of_nat (length es) in
  let k := if start <? 0 then Z.max (len + start) 0 else Z.min start len in
  let final := if end_ <? 0 then Z.max (len + end_) 0 else Z.min end_ len in
  take (Z.to_nat (Z.max (final - k) 0)) (drop (Z.to_nat k) es).

(** [array.slice(start, end)]: the elements of the new array. *)
Definition Array_slice (a : CacheData) (start end_ : Z) (s : State) : list CacheData :=
  match a with
  | VObject l =>
      match heap s !! l with
      | Some (OArray es _) => slice es start end_
      | _ => []
      end
  | _ => []
  end.

(** [Array.prototype.indexOf(x)] on the elements, counting from [i]: the
    index of the first element strictly equal to [x], or -1. *)
Fixpoint indexOf_from (es : list CacheData) (x : CacheData) (i : Z) : Z :=
  match es with
  | [] => -1
  | e :: es' => if StrictEquals e x then i else indexOf_from es' x (i + 1)
  end.

(** [array.indexOf(x)] *)
Definition Array_indexOf (a : CacheData) (x : CacheData) (s : State) : Z :=
  match a with
  | VObject l =>
      match heap s !! l with
      | Some (OArray es _) => indexOf_from es x 0
      | _ => -1
      end
  | _ => -1
  end.

(** [array[index]]: the element for an index from 0 on, the property named
    by the index for a negative one; [undefined] is [None]. *)
Definition Array_get (a : CacheData) (index : Z) (s : State) : option CacheData :=
  match a with
  | VObject l =>
      match heap s !! l with
      | Some (OArray es ps) => if index <? 0 then ps !! index else es !! Z.to_nat index
      | _ => None
      end
  | _ => None
  end.

(** [array.filter((el) => el !== x)]: the elements of the new array. *)
Definition Array_filter_ne (a : CacheData) (x : CacheData) (s : State) : list CacheData :=
  match a with
  | VObject l =>
      match heap s !! l with
      | Some (OArray es _) => List.filter (fun el => negb (StrictEquals el x)) es
      | _ => []
      end
  | _ => []
  end.

(** ** Regular expressions, as far as [scan] builds them *)

(** The characters of the class that [scan] escapes: the fourteen syntax
    characters of a pattern. *)
Definition is_syntax_char (c : ascii) : bool :=
  existsb (Ascii.eqb c) (list_ascii_of_string ".*+?^${}()|[]\").

(** The first [replace] of [scan], with the flag g: a backslash is put
    before every syntax character. *)
Fixpoint escape_syntax_chars (p : string) : string :=
  match p with
  | EmptyString => EmptyString
  | String c p' =>
      if is_syntax_char c then String "\" (String c (escape_syntax_chars p'))
      else String c (escape_syntax_chars p')
  end.

(** The second [replace] of [scan], with the flag g: from left to right,
    every backslash followed by a star becomes a dot followed by a star. *)
Fixpoint replace_escaped_stars (src : string) : string :=
  match src with
  | EmptyString => EmptyString
  | String c rest =>
      if Ascii.eqb c "\" then
        match rest with
        | String d rest' =>
            if Ascii.eqb d "*" then String "." (String "*" (replace_escaped_stars rest'))
            else String c (replace_escaped_stars rest)
        | EmptyString => String c EmptyString
        end
      else String c (replace_escaped_stars rest)
  end.

(** An atom matches one character: a given one, or (the dot) any character
    that is not a line terminator. *)
Inductive Atom : Type :=
| PatternCharacter (c : ascii)
| Dot.

Inductive Term : Type :=
| AssertStart
| AssertEnd
| One (a : Atom)
| Star (a : Atom).

(** Line terminators among the code units below 256: line feed and carriage
    return. *)
Definition is_line_terminator (c : ascii) : bool :=
  Ascii.eqb c (ascii_of_nat 10) || Ascii.eqb c (ascii_of_nat 13).

Definition flush (pending : option Atom) (ts : list Term) : list Term :=
  match pending with
  | Some a => One a :: ts
  | None => ts
  end.

(** [new RegExp(source)] without flags, for the syntax made of the two
    assertions, the dot, a backslash before a syntax character, characters
    that stand for themselves and the greedy star after an atom.  [pending] is the
    atom read last, which a star may still follow.  [None]: the source is
    outside this syntax. *)
Fixpoint parse_pattern (pending : option Atom) (source : string) : option (list Term) :=
  match source with
  | EmptyString => Some (flush pending [])
  | String c rest =>
      if Ascii.eqb c "*" then
        match pending with
        | Some a => cons (Star a) <$> parse_pattern None rest
        | None => None
        end
      else
        flush pending <$>
          (if Ascii.eqb c "^" then cons AssertStart <$> parse_pattern None rest
           else if Ascii.eqb c "$" then cons AssertEnd <$> parse_pattern None rest
           else if Ascii.eqb c "." then parse_pattern (Some Dot) rest
           else if Ascii.eqb c "\" then
             match rest with
             | String e rest' =>
                 if is_syntax_char e then parse_pattern (Some (PatternCharacter e)) rest'
                 else None
             | EmptyString => None
             end
           else if is_syntax_char c then None
           else parse_pattern (Some (PatternCharacter c)) rest)
  end.

Definition RegExp (source : string) : option (list Term) := parse_pattern None source.

Definition atom_matches (a : Atom) (c : ascii) : bool :=
  match a with
  | PatternCharacter d => Ascii.eqb d c
  | Dot => negb (is_line_terminator c)
  end.

(** The greedy star on an atom: it takes a character that the atom
    matches and goes on, and gives the character back to what follows in
    the pattern, [rest], when that fails. *)
Fixpoint star_loop (a : Atom) (rest : bool -> string -> bool)
    (at_start : bool) (input : string) : bool :=
  match input with
  | String c input' => (atom_matches a c && star_loop a rest false input') || rest at_start input
  | EmptyString => rest at_start input
  end.

(** The backtracking matcher at one position of the input: [at_start] tells
    whether that position is the start of the input, [input] is what is
    left. *)
Fixpoint match_here (ts : list Term) (at_start : bool) (input : string) : bool :=
  match ts with
  | [] => true
  | AssertStart :: ts' => at_start && match_here ts' at_start input
  | AssertEnd :: ts' =>
      match input with
      | EmptyString => match_here ts' at_start input
      | String _ _ => false
      end
  | One a :: ts' =>
      match input with
      | String c input' => atom_matches a c && match_here ts' false input'
      | EmptyString => false
      end
  | Star a :: ts' => star_loop a (match_here ts') at_start input
  end.

(** [regex.test(input)] without flags: a match is tried at every position,
    from the left. *)
Fixpoint search_from (ts : list Term) (at_start : bool) (input : string) : bool :=
  match_here ts at_start input ||
  match input with
  | String _ input' => search_from ts false input'
  | EmptyString => false
  end.

Definition RegExp_test (regex : list Term) (input : string) : bool :=
  search_from regex true input.

(** ** The class *)

Module LocalCache.

(** [constructor(options?)]: [this._TTL = options?.TTL ?? 0], on a given
    host (its heap and its timers). *)
Definition new (options : option Z) (h : list Obj) (ts : list Timer) : State :=
  mkState (default 0 options) ∅ h ts.

(** [private handleTTL(key, ttl)]: the handle, or [undefined]. *)
Definition handleTTL (key : string) (ttl : Z) (s : State) : option nat * State :=
  if ttl <=? 0 then (None, s)
  else let '(id, s') := setTimeout key (ttl * 1000) s in (Some id, s').

(** [set(key, value, ttl = this._TTL)]: the handle is computed first, then
    the entry is stored; the entry that was there is dropped as it is. *)
Definition set (key : string) (v : CacheData) (ttl_arg : option Z) : M unit :=
  fun s =>
    let ttl := default (_TTL s) ttl_arg in
    let '(t, s1) := handleTTL key ttl s in
    Returns tt (with_data (fun d => <[key := mkEntry ttl v t]> d) s1).

(** [get(key)] *)
Definition get (key : string) : M (option CacheData) :=
  fun s => Returns (value <$> data s !! key) s.

(** [del(...keys)] *)
Definition del (keys : list string) : M unit :=
  fun s => Returns tt (with_data (fun d => foldl (fun d key => delete key d) d keys) s).

(** [exists(key)] *)
Definition exists_ (key : string) : M bool :=
  fun s => Returns (bool_decide (is_Some (data s !! key))) s.

(** [getTTL(key)] *)
Definition getTTL (key : string) : M Z :=
  fun s => Returns (match data s !! key with Some d => ttl d | None => -1 end) s.

(** [setTTL(key, ttl)] *)
Definition setTTL (key : string) (new_ttl : Z) : M unit :=
  fun s =>
    match data s !! key with
    | None => throw "Invalid key" s
    | Some d =>
        let s1 := clearTimeout (timeout d) s in
        let '(t, s2) := handleTTL key new_ttl s1 in
        Returns tt (with_data (fun m => <[key := mkEntry new_ttl (value d) t]> m) s2)
    end.

(** [persist(key)]: the handle stays in the entry, its timer is cancelled. *)
Definition persist (key : string) : M unit :=
  fun s =>
    match data s !! key with
    | None => throw "Invalid key" s
    | Some d =>
        let s1 := clearTimeout (timeout d) s in
        Returns tt (with_data (fun m => <[key := mkEntry 0 (value d) (timeout d)]> m) s1)
    end.

(** The branch of [hSet] that installs a new entry:
    [{ ttl, timeout: this.handleTTL(key, ttl), value: new Map() }]. *)
Definition hSet_create (key : string) (ttl : Z) (s : State) : CacheData * State :=
  let '(t, s1) := handleTTL key ttl s in
  let '(l, s2) := alloc (OMap ∅) s1 in
  (VObject l, with_data (fun d => <[key := mkEntry ttl (VObject l) t]> d) s2).

(** [hSet(key, object, ttl = this._TTL)] *)
Definition hSet (key : string) (object : gmap string CacheData) (ttl_arg : option Z) : M unit :=
  fun s =>
    let ttl := default (_TTL s) ttl_arg in
    let '(m, s1) :=
      match data s !! key with
      | Some d => if instanceof_Map s (value d) then (value d, s) else hSet_create key ttl s
      | None => hSet_create key ttl s
      end in
    Returns tt (foldl (fun s '(field, v) => Map_set m field v s) s1 (map_to_list object)).

(** [hGetAll(key)]: [null] is [None]. *)
Definition hGetAll (key : string) : M (option (gmap string CacheData)) :=
  fun s =>
    match data s !! key with
    | Some d =>
        if instanceof_Map s (value d) then Returns (Some (Map_entries (value d) s)) s
        else Returns None s
    | None => Returns None s
    end.

(** The branch of [sAdd] that installs a new entry; the timer comes from
    the default ttl of the store. *)
Definition sAdd_create (key : string) (s : State) : CacheData * State :=
  let '(t, s1) :=
    if _TTL s >? 0
    then let '(id, s') := setTimeout key (_TTL s * 1000) s in (Some id, s')
    else (None, s) in
  let '(l, s2) := alloc (OSet []) s1 in
  (VObject l, with_data (fun d => <[key := mkEntry (_TTL s) (VObject l) t]> d) s2).

(** [sAdd(key, members)] *)
Definition sAdd (key : string) (members : list CacheData) : M unit :=
  fun s =>
    let '(st, s1) :=
      match data s !! key with
      | Some d => if instanceof_Set s (value d) then (value d, s) else sAdd_create key s
      | None => sAdd_create key s
      end in
    Returns tt (foldl (fun s member => Set_add st member s) s1 members).

(** [sIsMember(key, member)] *)
Definition sIsMember (key : string) (member : CacheData) : M bool :=
  fun s =>
    match data s !! key with
    | Some d =>
        if instanceof_Set s (value d) then Returns (Set_has (value d) member s) s
        else Returns false s
    | None => Returns false s
    end.

(** [mSet(object)]: one [this.data.set] per own property of [object]. *)
Definition mSet (object : gmap string CacheData) : M unit :=
  fun s =>
    Returns tt
      (with_data
         (fun d => foldl (fun d '(key, v) => <[key := mkEntry 0 v None]> d) d (map_to_list object))
         s).

(** [incrementBy(key, value)], for an integral amount: the sum of two
    doubles; an infinity and a finite amount give that infinity. *)
Definition incrementBy (key : string) (delta : Z) : M unit :=
  fun s =>
    match data s !! key with
    | Some (mkEntry t (VNumber n) h) =>
        Returns tt (with_data (fun m => <[key := mkEntry t (Number_add n delta) h]> m) s)
    | Some (mkEntry t (VInfinity b) h) =>
        Returns tt (with_data (fun m => <[key := mkEntry t (VInfinity b) h]> m) s)
    | _ => throw CacheErrors.InvalidKey s
    end.

(** [lPush(key, values)]: the entry found, or a new one; its value is
    replaced by a new array when it is not one; then the push, and the
    entry is stored (again) under the key. *)
Definition lPush (key : string) (values : list CacheData) : M unit :=
  fun s =>
    let '(d, s1) :=
      match data s !! key with
      | Some d => (d, s)
      | None =>
          let '(t, s1) := handleTTL key (_TTL s) s in
          let '(l, s2) := alloc (OArray [] ∅) s1 in
          (mkEntry (_TTL s) (VObject l) t, s2)
      end in
    let '(d, s2) :=
      if Array_isArray s1 (value d) then (d, s1)
      else let '(l, s2) := alloc (OArray [] ∅) s1 in
           (mkEntry (ttl d) (VObject l) (timeout d), s2) in
    let s3 := Array_push (value d) values s2 in
    Returns tt (with_data (fun m => <[key := d]> m) s3).

(** [lPop(key)] *)
Definition lPop (key : string) : M unit :=
  fun s =>
    match data s !! key with
    | Some d =>
        if Array_isArray s (value d) then Returns tt (Array_pop (value d) s)
        else Returns tt s
    | None => Returns tt s
    end.

(** [lLen(key)] *)
Definition lLen (key : string) : M Z :=
  fun s =>
    match data s !! key with
    | None => throw CacheErrors.InvalidKey s
    | Some d =>
        if negb (Array_isArray s (value d)) then throw CacheErrors.InvalidKeyType s
        else Returns (Array_length (value d) s) s
    end.

(** [lSet(key, index, value)] *)
Definition lSet (key : string) (index : Z) (v : CacheData) : M unit :=
  fun s =>
    match data s !! key with
    | None => throw CacheErrors.InvalidKey s
    | Some d =>
        if negb (Array_isArray s (value d)) then throw CacheErrors.InvalidKeyType s
        else if index >? Array_length (value d) s - 1 then throw CacheErrors.OutOfIndex s
        else Returns tt (with_data (fun m => <[key := d]> m) (Array_put (value d) index v s))
    end.

(** [lRemIndex(key, index)] *)
Definition lRemIndex (key : string) (index : Z) : M unit :=
  fun s =>
    match data s !! key with
    | None => throw CacheErrors.InvalidKey s
    | Some d =>
        if negb (Array_isArray s (value d)) then throw CacheErrors.InvalidKeyType s
        else if index >? Array_length (value d) s - 1 then throw CacheErrors.OutOfIndex s
        else Returns tt (with_data (fun m => <[key := d]> m) (Array_splice (value d) index 1 s))
    end.

(** [scan(pattern)].  A source outside the syntax of [RegExp] is
    reported as a thrown error; [scan_source_parses] shows that no pattern
    leads there. *)
Definition scan_source (pattern : string) : string :=
  String "^" (replace_escaped_stars (escape_syntax_chars pattern) ++ "$")%string.

Definition scan (pattern : string) : M (list string) :=
  fun s =>
    match RegExp (scan_source pattern) with
    | None => throw "SyntaxError" s
    | Some regex => Returns (List.filter (RegExp_test regex) (map_to_list (data s)).*1) s
    end.

(** [hGet(key, field)]: [null] is [None]. *)
Definition hGet (key field : string) : M (option CacheData) :=
  fun s =>
    match data s !! key with
    | Some d =>
        if instanceof_Map s (value d) then Returns (Map_get (value d) field s) s
        else Returns None s
    | None => Returns None s
    end.

(** [hDel(key, field)] *)
Definition hDel (key field : string) : M unit :=
  fun s =>
    match data s !! key with
    | Some d =>
        if instanceof_Map s (value d) then Returns tt (Map_delete (value d) field s)
        else Returns tt s
    | None => Returns tt s
    end.

(** [hExists(key, field)] *)
Definition hExists (key field : string) : M bool :=
  fun s =>
    match data s !! key with
    | Some d =>
        if instanceof_Map s (value d) then Returns (Map_has (value d) field s) s
        else Returns false s
    | None => Returns false s
    end.

(** [hLen(key)] *)
Definition hLen (key : string) : M Z :=
  fun s =>
    match data s !! key with
    | Some d =>
        if instanceof_Map s (value d) then Returns (Map_size (value d) s) s
        else Returns 0 s
    | None => Returns 0 s
    end.

(** [hKeys(key)] *)
Definition hKeys (key : string) : M (list string) :=
  fun s =>
    match data s !! key with
    | Some d =>
        if instanceof_Map s (value d) then Returns (Map_keys (value d) s) s
        else Returns [] s
    | None => Returns [] s
    end.

(** [hValues(key)] *)
Definition hValues (key : string) : M (list CacheData) :=
  fun s =>
    match data s !! key with
    | Some d =>
        if instanceof_Map s (value d) then Returns (Map_values (value d) s) s
        else Returns [] s
    | None => Returns [] s
    end.

(** [mGet(...keys)]: [null] is [None]. *)
Definition mGet (keys : list string) : M (list (option CacheData)) :=
  fun s => Returns (map (fun key => value <$> data s !! key) keys) s.

(** [lRange(key, start, end)] *)
Definition lRange (key : string) (start end_ : Z) : M (list CacheData) :=
  fun s =>
    match data s !! key with
    | None => throw CacheErrors.InvalidKey s
    | Some d =>
        if negb (Array_isArray s (value d)) then throw CacheErrors.InvalidKeyType s
        else Returns (Array_slice (value d) start end_ s) s
    end.

(** [lPos(key, member)] *)
Definition lPos (key : string) (member : CacheData) : M Z :=
  fun s =>
    match data s !! key with
    | None => throw CacheErrors.InvalidKey s
    | Some d =>
        if negb (Array_isArray s (value d)) then throw CacheErrors.InvalidKeyType s
        else Returns (Array_indexOf (value d) member s) s
    end.

(** [lIndex(key, index)]: [null] is [None]. *)
Definition lIndex (key : string) (index : Z) : M (option CacheData) :=
  fun s =>
    match data s !! key with
    | None => throw CacheErrors.InvalidKey s
    | Some d =>
        if negb (Array_isArray s (value d)) then throw CacheErrors.InvalidKeyType s
        else Returns (Array_get (value d) index s) s
    end.

(** [lRem(key, element)]: the entry gets a new array, the one that
    [filter] returns; the array it had is left as it is. *)
Definition lRem (key : string) (element : CacheData) : M unit :=
  fun s =>
    match data s !! key with
    | None => throw CacheErrors.InvalidKey s
    | Some d =>
        if negb (Array_isArray s (value d)) then throw CacheErrors.InvalidKeyType s
        else
          let '(l, s1) := alloc (OArray (Array_filter_ne (value d) element s) ∅) s in
          Returns tt (with_data (fun m => <[key := mkEntry (ttl d) (VObject l) (timeout d)]> m) s1)
    end.

End LocalCache.

(** ** The event loop *)

(** The host runs the callback of a pending timer: the key is deleted.
    Nothing happens for a handle that is not pending. *)
Definition fire (id : nat) (s : State) : State :=
  match timers s !! id with
  | Some (mkTimer k d Pending) =>
      state_of (LocalCache.del [k] (with_timers (fun ts => <[id := mkTimer k d Fired]> ts) s))
  | _ => s
  end.

(** The pending timers whose callback deletes [key]. *)
Definition is_live_for (key : string) (t : Timer) : bool :=
  match status t with
  | Pending => bool_decide (cb_key t = key)
  | _ => false
  end.

Definition live_timers_of (key : string) (s : State) : list Timer :=
  List.filter (is_live_for key) (timers s).

(** ** What a key holds *)

(** The fields of the Hashmap, the members of the Set, the elements of the
    List stored under [key]; [None] when the key is absent or holds
    something else. *)
Definition holds_hashmap (key : string) (s : State) : option (gmap string CacheData) :=
  match data s !! key with
  | Some (mkEntry _ (VObject l) _) =>
      match heap s !! l with Some (OMap es) => Some es | _ => None end
  | _ => None
  end.

Definition holds_set (key : string) (s : State) : option (list CacheData) :=
  match data s !! key with
  | Some (mkEntry _ (VObject l) _) =>
      match heap s !! l with Some (OSet ms) => Some ms | _ => None end
  | _ => None
  end.

Definition holds_list (key : string) (s : State) : option (list CacheData) :=
  match data s !! key with
  | Some (mkEntry _ (VObject l) _) =>
      match heap s !! l with Some (OArray es _) => Some es | _ => None end
  | _ => None
  end.

(** One [Set.prototype.add] on the list of members. *)
Definition add_member (ms : list CacheData) (x : CacheData) : list CacheData :=
  if existsb (SameValueZero x) ms then ms else ms ++ [x].

(** ** Notions of the specification *)

(** Deep value comparison, as the specification has it for the members of
    a Set: primitives by value, objects by their contents, to a depth of
    [fuel] references. *)
Fixpoint deep_equal (fuel : nat) (h : list Obj) (x y : CacheData) : bool :=
  match fuel with
  | O => false
  | S fuel' =>
      match x, y with
      | VObject a, VObject b =>
          match h !! a, h !! b with
          | Some (OBuffer b1), Some (OBuffer b2) => bool_decide (b1 = b2)
          | Some (ORecord f1), Some (ORecord f2)
          | Some (OMap f1), Some (OMap f2) =>
              bool_decide (dom f1 = dom f2) &&
              forallb (fun '(k, u) =>
                         match f2 !! k with
                         | Some v => deep_equal fuel' h u v
                         | None => false
                         end) (map_to_list f1)
          | Some (OSet m1), Some (OSet m2) =>
              forallb (fun u => existsb (deep_equal fuel' h u) m2) m1 &&
              forallb (fun v => existsb (fun u => deep_equal fuel' h u v) m1) m2
          | Some (OArray es1 _), Some (OArray es2 _) =>
              bool_decide (length es1 = length es2) &&
              forallb (fun '(u, v) => deep_equal fuel' h u v) (zip es1 es2)
          | _, _ => false
          end
      | _, _ => SameValueZero x y
      end
  end.

(** A star of a glob against a key: it takes any run of characters that
    [absorb] admits, and [rest] is the remainder of the pattern. *)
Fixpoint absorb_loop (absorb : ascii -> bool) (rest : string -> bool) (key : string) : bool :=
  match key with
  | String d key' => (absorb d && absorb_loop absorb rest key') || rest key
  | EmptyString => rest key
  end.

(** A pattern against a key, character by character: a star stands for
    any run of characters that [absorb] admits, every other character for
    itself. *)
Fixpoint wildcard_match (absorb : ascii -> bool) (pattern key : string) : bool :=
  match pattern with
  | EmptyString =>
      match key with EmptyString => true | String _ _ => false end
  | String c pattern' =>
      if Ascii.eqb c "*" then absorb_loop absorb (wildcard_match absorb pattern') key
      else
        match key with
        | String d key' => Ascii.eqb c d && wildcard_match absorb pattern' key'
        | EmptyString => false
        end
  end.

(** The glob of the specification: a star matches any substring. *)
Definition glob_match (pattern key : string) : bool :=
  wildcard_match (fun _ => true) pattern key.

(** The glob that a dot without the flag s gives: a star matches any
    substring without a line terminator. *)
Definition glob_match_on_a_line (pattern key : string) : bool :=
  wildcard_match (fun c => negb (is_line_terminator c)) pattern key.

(** ** Scenarios *)

(** The store of the scenarios below: no default ttl, an empty host. *)
Definition fresh_store : State := LocalCache.new None [] [].

(** What a call returned, when it returned. *)
Definition result_of {A} (o : Outcome A) : option A :=
  match o with Returns a _ => Some a | Throws _ _ => None end.

(** A host heap with two arrays of the same contents: two evaluations of
    the array literal with the one element 1. *)
Definition two_arrays : list Obj := [OArray [VNumber 1] ∅; OArray [VNumber 1] ∅].

(** A store with the List 1, 2, 3 under the key l. *)
Definition three_elements : State :=
  state_of (LocalCache.lPush "l" [VNumber 1; VNumber 2; VNumber 3] fresh_store).

(** What [scan] makes of a pattern: a star of the pattern is the star of
    the dot, any other character stands for itself. *)
Fixpoint glob_terms (pattern : string) : list Term :=
  match pattern with
  | EmptyString => []
  | String c pattern' =>
      (if Ascii.eqb c "*" then Star Dot else One (PatternCharacter c)) :: glob_terms pattern'
  end.

(** The text that the two replacements of [scan] put for one character of
    the pattern. *)
Definition translate (c : ascii) : string :=
  if Ascii.eqb c "*" then ".*"
  else if is_syntax_char c then String "\" (String c EmptyString)
  else String c EmptyString.

Definition starts_with_star (src : string) : bool :=
  match src with
  | String c _ => Ascii.eqb c "*"
  | EmptyString => false
  end.

(** The line feed, and a key with a line feed in it. *)
Definition LF : ascii := ascii_of_nat 10.
Definition two_lines : string := String "a" (String LF (String "b" EmptyString)).

(** ** Timers and entries *)

(** Every pending timer that deletes [key] is the one whose handle the
    entry under [key] records. *)
Definition owns_its_timers (key : string) (s : State) : Prop :=
  forall id t, timers s !! id = Some t -> is_live_for key t = true ->
    timeout <$> data s !! key = Some (Some id).

(** A store with the default ttl 60 and the key a, set to expire. *)
Definition expiring_store : State :=
  state_of (LocalCache.set "a" (VNumber 1) None (LocalCache.new (Some 60) [] [])).

(** A store where the keys a and b hold the same array, the one at the
    reference 0 of the host heap: [const arr = [1]; set("a", arr);
    set("b", arr)]. *)
Definition shared_array : State :=
  state_of ((LocalCache.set "a" (VObject 0) None ;;; LocalCache.set "b" (VObject 0) None)
              (LocalCache.new None [OArray [VNumber 1] ∅] [])).

(** A pattern without a star. *)
Definition has_no_star (pattern : string) : bool :=
  forallb (fun c => negb (Ascii.eqb c "*")) (list_ascii_of_string pattern).

(** The store of the scenario of [scan]: two users and an admin. *)
Definition users_and_admins : State :=
  state_of ((LocalCache.set "users:1" (VNumber 1) None ;;;
             LocalCache.set "users:2" (VNumber 2) None ;;;
             LocalCache.set "admins:1" (VNumber 3) None) fresh_store).

(** The store after [set] of a with the ttl 1 and [mSet] of a. *)
Definition set_then_mSet : State :=
  state_of ((LocalCache.set "a" (VString "v1") (Some 1) ;;;
             LocalCache.mSet {[ "a" := VString "v2" ]}) fresh_store).

(** * Properties *)

Import LocalCache.

(** A scenario on a concrete store is settled by running the model. *)
Ltac by_evaluation := repeat split; vm_compute; reflexivity.

(** ** Timers *)

Lemma clearTimeout_not_pending (id : nat) (s : State) :
  status <$> timers (clearTimeout (Some id) s) !! id <> Some Pending.
Proof.
  unfold clearTimeout.
  destruct (timers s !! id) as [[k d st]|] eqn:Hid; [|by rewrite Hid].
  destruct st; simpl; try (by rewrite Hid).
  rewrite list_lookup_insert_eq; [done|]. by eapply lookup_lt_Some.
Qed.

Lemma clearTimeout_with_data (h : option nat) (f : gmap string Entry -> gmap string Entry)
    (s : State) :
  clearTimeout h (with_data f s) = with_data f (clearTimeout h s).
Proof.
  unfold clearTimeout. destruct h as [id|]; [|done]. simpl.
  destruct (timers s !! id) as [[k d []]|]; done.
Qed.

Lemma clearTimeout_idemp (h : option nat) (s : State) :
  clearTimeout h (clearTimeout h s) = clearTimeout h s.
Proof.
  destruct h as [id|]; [|done].
  pose proof (clearTimeout_not_pending id s) as Hnp.
  unfold clearTimeout at 1.
  destruct (timers (clearTimeout (Some id) s) !! id) as [[k d []]|]; done.
Qed.

Lemma with_data_insert_same (k : string) (e : Entry) (s : State) :
  data s !! k = Some e -> with_data (fun m => <[k := e]> m) s = s.
Proof.
  intros H. destruct s as [t d h ts]; unfold with_data; simpl in *.
  by rewrite insert_id.
Qed.

(** ** [persist] and [setTTL] *)

(** On a present key [persist] returns, records the ttl 0 and leaves no
    pending timer behind the handle of the entry. *)
Lemma persist_present (k : string) (d : Entry) (s : State) :
  data s !! k = Some d ->
  exists s', persist k s = Returns tt s' /\
    data s' !! k = Some (mkEntry 0 (value d) (timeout d)) /\
    getTTL k s' = Returns 0 s' /\
    (forall id, timeout d = Some id -> status <$> timers s' !! id <> Some Pending).
Proof.
  intros Hd. unfold persist. rewrite Hd. eexists. split; [reflexivity|].
  split; [simpl; by rewrite lookup_insert_eq|].
  split; [unfold getTTL; simpl; by rewrite lookup_insert_eq|].
  intros id ->. apply clearTimeout_not_pending.
Qed.

(** A second [persist] returns as well and changes nothing. *)
Lemma persist_idempotent (k : string) (d : Entry) (s : State) :
  data s !! k = Some d ->
  exists s', persist k s = Returns tt s' /\ persist k s' = Returns tt s'.
Proof.
  intros Hd. unfold persist at 1. rewrite Hd. eexists. split; [reflexivity|].
  unfold persist. simpl. rewrite lookup_insert_eq. simpl.
  rewrite clearTimeout_with_data, clearTimeout_idemp.
  f_equal. unfold with_data; simpl. by rewrite insert_insert_eq.
Qed.

(** [setTTL] cancels the timer behind the handle of the entry before it
    arms the new one. *)
Lemma setTTL_cancels (k : string) (d : Entry) (id : nat) (new_ttl : Z) (s : State) :
  data s !! k = Some d -> timeout d = Some id -> (id < length (timers s))%nat ->
  exists s', setTTL k new_ttl s = Returns tt s' /\
    status <$> timers s' !! id <> Some Pending.
Proof.
  intros Hd Ht Hlt. unfold setTTL. rewrite Hd, Ht.
  pose proof (clearTimeout_not_pending id s) as Hnp.
  assert (length (timers (clearTimeout (Some id) s)) = length (timers s)) as Hlen.
  { unfold clearTimeout. destruct (timers s !! id) as [[k' d' []]|]; simpl; try done.
    by rewrite length_insert. }
  remember (clearTimeout (Some id) s) as s1 eqn:Hs1. clear Hs1.
  unfold handleTTL. destruct (new_ttl <=? 0); simpl.
  - eexists; split; [reflexivity|]. done.
  - eexists; split; [reflexivity|]. simpl.
    rewrite lookup_app_l by lia. done.
Qed.

(** ** Replaced entries and their timers *)

(** [set] leaves every timer of the table as it is: the timer of the entry
    it replaces is not cancelled. *)
Lemma set_keeps_timers (key : string) (v : CacheData) (ttl_arg : option Z)
    (s : State) (id : nat) (t : Timer) :
  timers s !! id = Some t ->
  timers (state_of (set key v ttl_arg s)) !! id = Some t.
Proof.
  intros Hid. unfold set, handleTTL.
  destruct (default (_TTL s) ttl_arg <=? 0); simpl; [done|].
  by apply lookup_app_l_Some.
Qed.

(** A pending timer that fires deletes its key, whatever was stored there
    since. *)
Lemma fire_deletes (id : nat) (k : string) (d : Z) (s : State) :
  timers s !! id = Some (mkTimer k d Pending) ->
  data (fire id s) !! k = None.
Proof.
  intros Hid. unfold fire. rewrite Hid. simpl. apply lookup_delete_eq.
Qed.

(** So an entry written by [set] over one with a pending timer is deleted
    when that timer fires, also when it was written never to expire. *)
Lemma stale_timer_deletes_new_entry (key : string) (v : CacheData) (ttl_arg : option Z)
    (s : State) (id : nat) (d : Z) :
  timers s !! id = Some (mkTimer key d Pending) ->
  is_Some (data (state_of (set key v ttl_arg s)) !! key) /\
  data (fire id (state_of (set key v ttl_arg s))) !! key = None.
Proof.
  intros Hid. split.
  - unfold set. destruct (handleTTL key _ s). simpl. by rewrite lookup_insert_eq.
  - eapply fire_deletes. by apply set_keeps_timers.
Qed.

(** C1.  Replacing an entry does not cancel the timer of the entry it
    replaces.  After [set("a", "v1", 1)] and [set("a", "v2", 0)] the timer
    of the first call is still pending although the entry records the ttl 0
    and no handle; when it fires, the entry written after it was armed is
    deleted.  The same holds after [mSet], and after [hSet] and [sAdd] when
    they replace a value of another type.  Overwriting with a positive ttl
    leaves two pending timers for the one key. *)
Theorem replacing_an_entry_keeps_its_timer :
  (state_of ((set "a" (VString "v1") (Some 1) ;;; set "a" (VString "v2") (Some 0)) fresh_store)
     = mkState 0 {[ "a" := mkEntry 0 (VString "v2") None ]} [] [mkTimer "a" 1000 Pending]
   /\ (fire 0 (state_of ((set "a" (VString "v1") (Some 1) ;;;
                          set "a" (VString "v2") (Some 0)) fresh_store)))
     = mkState 0 ∅ [] [mkTimer "a" 1000 Fired])
  /\ (fire 0 (state_of ((set "a" (VString "v1") (Some 1) ;;;
                         mSet {[ "a" := VString "v2" ]}) fresh_store)))
     = mkState 0 ∅ [] [mkTimer "a" 1000 Fired]
  /\ get "a" (fire 0 (state_of ((set "a" (VString "v1") (Some 1) ;;;
                                 hSet "a" {[ "x" := VNumber 1 ]} (Some 0)) fresh_store)))
     = Returns None (mkState 0 ∅ [OMap {[ "x" := VNumber 1 ]}] [mkTimer "a" 1000 Fired])
  /\ get "a" (fire 0 (state_of ((set "a" (VString "v1") (Some 1) ;;;
                                 sAdd "a" [VNumber 1]) fresh_store)))
     = Returns None (mkState 0 ∅ [OSet [VNumber 1]] [mkTimer "a" 1000 Fired])
  /\ live_timers_of "a"
       (state_of ((set "a" (VString "v1") (Some 1) ;;; set "a" (VString "v2") (Some 5)) fresh_store))
     = [mkTimer "a" 1000 Pending; mkTimer "a" 5000 Pending].
Proof. by_evaluation. Qed.

(** C8.  On an absent key [persist] throws an error whose message is not
    the message [InvalidKey] of [CacheErrors], the one that [incrementBy]
    and the list operations throw for an absent key. *)
Theorem persist_absent_message :
  persist "k" fresh_store = Throws (MkError "Invalid key") fresh_store
  /\ MkError "Invalid key" <> MkError CacheErrors.InvalidKey
  /\ incrementBy "k" 1 fresh_store = Throws (MkError CacheErrors.InvalidKey) fresh_store
  /\ lLen "k" fresh_store = Throws (MkError CacheErrors.InvalidKey) fresh_store.
Proof. split; [reflexivity|]. split; [discriminate|]. split; reflexivity. Qed.

(** ** The heap *)

Lemma store_obj_id (l : loc) (o : Obj) (s : State) :
  heap s !! l = Some o -> store_obj l o s = s.
Proof.
  intros H. destruct s as [t d h ts]; unfold store_obj, with_heap; simpl in *.
  by rewrite list_insert_id.
Qed.

Lemma store_obj_twice (l : loc) (o1 o2 : Obj) (s : State) :
  store_obj l o2 (store_obj l o1 s) = store_obj l o2 s.
Proof.
  unfold store_obj, with_heap; simpl. by rewrite list_insert_insert_eq.
Qed.

Lemma store_obj_lookup (l : loc) (o0 o : Obj) (s : State) :
  heap s !! l = Some o0 -> heap (store_obj l o s) !! l = Some o.
Proof.
  intros H. simpl. apply list_lookup_insert_eq. by eapply lookup_lt_Some.
Qed.

(** ** [mSet] *)

Lemma foldl_insert_lookup {A B : Type} (f : B -> A) (l : list (string * B))
    (d : gmap string A) (k : string) :
  NoDup l.*1 ->
  foldl (fun d '(key, v) => <[key := f v]> d) d l !! k =
    match (list_to_map l : gmap string B) !! k with
    | Some v => Some (f v)
    | None => d !! k
    end.
Proof.
  revert d. induction l as [|[k0 v0] l IH]; intros d Hnd; simpl.
  - by rewrite lookup_empty.
  - apply NoDup_cons in Hnd as [Hk0 Hnd]. rewrite IH by done.
    destruct (decide (k0 = k)) as [->|Hne].
    + rewrite lookup_insert_eq.
      rewrite (not_elem_of_list_to_map_1 l k) by done.
      by rewrite lookup_insert_eq.
    + rewrite !lookup_insert_ne by done. done.
Qed.

Lemma mSet_data (object : gmap string CacheData) (s : State) (k : string) :
  data (state_of (mSet object s)) !! k =
    match object !! k with
    | Some v => Some (mkEntry 0 v None)
    | None => data s !! k
    end.
Proof.
  unfold mSet; simpl.
  rewrite (foldl_insert_lookup (fun v => mkEntry 0 v None)) by apply NoDup_fst_map_to_list.
  by rewrite list_to_map_to_list.
Qed.

(** For every key of the mapping, [mSet] stores the value with the ttl 0
    and without a timer handle, and [getTTL] then returns 0, whatever the
    default ttl of the store is.  [mSet] arms no timer and cancels none:
    the table of timers, and with it the pending timers of the key, are
    as before. *)
Theorem mSet_getTTL_zero (object : gmap string CacheData) (key : string)
    (v : CacheData) (s : State) :
  object !! key = Some v ->
  exists s', mSet object s = Returns tt s' /\
    data s' !! key = Some (mkEntry 0 v None) /\
    timers s' = timers s /\
    live_timers_of key s' = live_timers_of key s /\
    getTTL key s' = Returns 0 s'.
Proof.
  intros Hk. exists (state_of (mSet object s)). split; [reflexivity|].
  pose proof (mSet_data object s key) as Hd. rewrite Hk in Hd.
  split; [exact Hd|]. split; [reflexivity|]. split; [reflexivity|].
  unfold getTTL. by rewrite Hd.
Qed.

(** On a store with the default ttl 60 where the key a has a pending
    timer: [mSet] of a and b, then [getTTL] of a. *)
Lemma mSet_getTTL_zero_witness :
  exists s', mSet {[ "a" := VNumber 1; "b" := VNumber 2 ]} expiring_store = Returns tt s' /\
    data s' !! "a" = Some (mkEntry 0 (VNumber 1) None) /\
    timers s' = timers expiring_store /\
    live_timers_of "a" s' = live_timers_of "a" expiring_store /\
    getTTL "a" s' = Returns 0 s'.
Proof.
  apply (mSet_getTTL_zero {[ "a" := VNumber 1; "b" := VNumber 2 ]} "a" (VNumber 1)).
  reflexivity.
Defined.

(** C3.  [mSet] stores the pair with the ttl 0 and [getTTL] returns 0, but
    the pair is not without a scheduled expiration: [mSet] does not cancel
    the timer of the entry it replaces.  After [set] of a with the ttl 1
    and [mSet] of a, the timer of the [set] is still pending, and when it
    fires the pair that [mSet] stored is deleted. *)
Theorem mSet_keeps_the_timer_of_the_replaced_entry :
  result_of ((set "a" (VString "v1") (Some 1) ;;; mSet {[ "a" := VString "v2" ]} ;;;
              getTTL "a") fresh_store) = Some 0
  /\ data set_then_mSet !! "a" = Some (mkEntry 0 (VString "v2") None)
  /\ live_timers_of "a" set_then_mSet = [mkTimer "a" 1000 Pending]
  /\ get "a" (fire 0 set_then_mSet) = Returns None (fire 0 set_then_mSet)
  /\ getTTL "a" (fire 0 set_then_mSet) = Returns (-1) (fire 0 set_then_mSet).
Proof. by_evaluation. Qed.

(** ** [hSet] *)

Lemma hGetAll_holds (k : string) (s : State) :
  hGetAll k s = Returns (holds_hashmap k s) s.
Proof.
  unfold hGetAll, holds_hashmap, instanceof_Map, Map_entries.
  destruct (data s !! k) as [[t [] h]|]; simpl; try done.
  destruct (heap s !! l) as [[]|]; done.
Qed.

Lemma holds_hashmap_None (k : string) (s : State) :
  holds_hashmap k s = None ->
  match data s !! k with
  | Some d => instanceof_Map s (value d) = false
  | None => True
  end.
Proof.
  unfold holds_hashmap, instanceof_Map.
  destruct (data s !! k) as [[t [] h]|]; simpl; try done.
  destruct (heap s !! l) as [[]|]; done.
Qed.

Lemma holds_hashmap_Some (k : string) (s : State) (old : gmap string CacheData) :
  holds_hashmap k s = Some old ->
  exists d l, data s !! k = Some d /\ value d = VObject l /\
    heap s !! l = Some (OMap old) /\ instanceof_Map s (value d) = true.
Proof.
  unfold holds_hashmap, instanceof_Map.
  destruct (data s !! k) as [[t [] h]|]; simpl; try done.
  destruct (heap s !! l) as [[]|] eqn:Hl; try done.
  intros [= ->]. exists (mkEntry t (VObject l) h), l. simpl. by rewrite Hl.
Qed.

Lemma foldl_insert_union (l : list (string * CacheData)) (es : gmap string CacheData) :
  NoDup l.*1 ->
  foldl (fun m '(f, v) => <[f := v]> m) es l = list_to_map l ∪ es.
Proof.
  intros Hnd. apply map_eq; intros k.
  rewrite (foldl_insert_lookup (fun v => v)) by done.
  destruct (list_to_map l !! k) as [v|] eqn:Hk.
  - symmetry. by apply lookup_union_Some_l.
  - by rewrite lookup_union_r.
Qed.

Lemma Map_set_fold (l : list (string * CacheData)) (m : loc)
    (es : gmap string CacheData) (s : State) :
  heap s !! m = Some (OMap es) ->
  foldl (fun s '(f, v) => Map_set (VObject m) f v s) s l =
    store_obj m (OMap (foldl (fun es '(f, v) => <[f := v]> es) es l)) s.
Proof.
  revert es s. induction l as [|[f v] l IH]; intros es s Hm; simpl.
  - by rewrite store_obj_id.
  - rewrite Hm.
    rewrite (IH (<[f := v]> es)) by (by eapply store_obj_lookup).
    by rewrite store_obj_twice.
Qed.

Lemma hSet_on_hashmap (k : string) (fields old : gmap string CacheData)
    (ttl_arg : option Z) (s : State) :
  holds_hashmap k s = Some old ->
  exists l, heap s !! l = Some (OMap old) /\
    hSet k fields ttl_arg s = Returns tt (store_obj l (OMap (fields ∪ old)) s) /\
    holds_hashmap k (store_obj l (OMap (fields ∪ old)) s) = Some (fields ∪ old).
Proof.
  intros Hh. pose proof Hh as Hh'.
  apply holds_hashmap_Some in Hh as (d & l & Hd & Hv & Hl & Hi).
  exists l. split; [done|]. split.
  - unfold hSet. rewrite Hd, Hi, Hv.
    rewrite (Map_set_fold _ l old) by done.
    rewrite foldl_insert_union by apply NoDup_fst_map_to_list.
    by rewrite list_to_map_to_list.
  - unfold holds_hashmap in *. simpl. rewrite Hd in *. destruct d as [t v h]; simpl in *.
    subst v. rewrite list_lookup_insert_eq by (by eapply lookup_lt_Some). done.
Qed.

(** A delay from 1 to [TIMEOUT_MAX] is the delay of the timer; a longer
    one gives a timer of 1 millisecond. *)
Lemma Timeout_after_in_range (delay : Z) :
  (1 <= delay <= TIMEOUT_MAX -> Timeout_after delay = delay) /\
  (delay > TIMEOUT_MAX -> Timeout_after delay = 1).
Proof.
  unfold Timeout_after. split; intros H.
  - destruct (Z.leb_spec 1 delay); [|lia].
    destruct (Z.leb_spec delay TIMEOUT_MAX); [done|lia].
  - destruct (Z.leb_spec delay TIMEOUT_MAX); [lia|]. by rewrite andb_false_r.
Qed.

Lemma handleTTL_positive (k : string) (t : Z) (s : State) :
  t > 0 ->
  handleTTL k t s =
    (Some (length (timers s)),
     with_timers (fun ts => ts ++ [mkTimer k (Timeout_after (t * 1000)) Pending]) s).
Proof.
  intros Ht. unfold handleTTL. destruct (Z.leb_spec t 0); [lia|done].
Qed.

Lemma handleTTL_not_positive (k : string) (t : Z) (s : State) :
  t <= 0 -> handleTTL k t s = (None, s).
Proof.
  intros Ht. unfold handleTTL. destruct (Z.leb_spec t 0); [done|lia].
Qed.

Lemma handleTTL_frame (k : string) (t : Z) (s : State) :
  _TTL (handleTTL k t s).2 = _TTL s /\ data (handleTTL k t s).2 = data s /\
  heap (handleTTL k t s).2 = heap s.
Proof. unfold handleTTL. by destruct (t <=? 0). Qed.

Lemma hSet_create_eq (k : string) (t : Z) (s : State) :
  hSet_create k t s =
    (VObject (length (heap s)),
     mkState (_TTL s)
       (<[k := mkEntry t (VObject (length (heap s))) (handleTTL k t s).1]> (data s))
       (heap s ++ [OMap ∅])
       (timers (handleTTL k t s).2)).
Proof.
  unfold hSet_create. destruct (handleTTL_frame k t s) as (H1 & H2 & H3).
  destruct (handleTTL k t s) as [h s1]; simpl in *.
  unfold with_data, with_heap; simpl. by rewrite H1, H2, H3.
Qed.

Lemma hSet_creates (k : string) (fields : gmap string CacheData)
    (ttl_arg : option Z) (s : State) :
  holds_hashmap k s = None ->
  let ttl := default (_TTL s) ttl_arg in
  let s' := mkState (_TTL s)
              (<[k := mkEntry ttl (VObject (length (heap s))) (handleTTL k ttl s).1]> (data s))
              (heap s ++ [OMap fields])
              (timers (handleTTL k ttl s).2) in
  hSet k fields ttl_arg s = Returns tt s' /\ holds_hashmap k s' = Some fields.
Proof.
  intros Hh ttl s'. apply holds_hashmap_None in Hh.
  assert (hSet k fields ttl_arg s =
            Returns tt (foldl (fun s0 '(f, v) => Map_set (hSet_create k ttl s).1 f v s0)
                          (hSet_create k ttl s).2 (map_to_list fields))) as ->.
  { unfold hSet. fold ttl. destruct (data s !! k) as [d|]; [rewrite Hh|];
      by destruct (hSet_create k ttl s). }
  rewrite hSet_create_eq. cbn [fst snd].
  rewrite (Map_set_fold _ _ ∅).
  2:{ simpl. rewrite lookup_app_r by done. by rewrite Nat.sub_diag. }
  rewrite foldl_insert_union by apply NoDup_fst_map_to_list.
  rewrite list_to_map_to_list, (right_id_L ∅ (∪)).
  split.
  - f_equal. unfold store_obj, with_heap, s'; simpl. f_equal.
    rewrite insert_app_r_alt by done. by rewrite Nat.sub_diag.
  - unfold holds_hashmap, s'; simpl. rewrite lookup_insert_eq.
    rewrite lookup_app_r by done. by rewrite Nat.sub_diag.
Qed.

(** C4.  Under a key that is absent or holds no Hashmap, [hSet] installs an
    entry with the given ttl, the handle of [handleTTL] for that ttl, and a
    new Hashmap that holds exactly the given fields: for a positive ttl a
    new pending timer for the key is added to the table and its handle is
    in the entry, for a ttl of 0 or less the table is as before and the
    entry has no handle.  Under a key that
    holds a Hashmap the entry and the timers stay as they are, the fields
    named are overwritten and the others are kept.  So [hSet] of x, then of
    y, gives a Hashmap with both. *)
Theorem hSet_merges_fields (k : string) (fields : gmap string CacheData)
    (ttl_arg : option Z) (s : State) :
  (holds_hashmap k s = None ->
   let ttl := default (_TTL s) ttl_arg in
   exists s', hSet k fields ttl_arg s = Returns tt s' /\
     data s' = <[k := mkEntry ttl (VObject (length (heap s))) (handleTTL k ttl s).1]> (data s) /\
     heap s' = heap s ++ [OMap fields] /\
     timers s' = timers (handleTTL k ttl s).2 /\
     hGetAll k s' = Returns (Some fields) s' /\
     (ttl > 0 ->
      data s' !! k = Some (mkEntry ttl (VObject (length (heap s))) (Some (length (timers s)))) /\
      timers s' = timers s ++ [mkTimer k (Timeout_after (ttl * 1000)) Pending]) /\
     (ttl <= 0 ->
      data s' !! k = Some (mkEntry ttl (VObject (length (heap s))) None) /\
      timers s' = timers s))
  /\ (forall old, holds_hashmap k s = Some old ->
      exists s', hSet k fields ttl_arg s = Returns tt s' /\
        data s' = data s /\ timers s' = timers s /\
        hGetAll k s' = Returns (Some (fields ∪ old)) s' /\
        forall f, (fields ∪ old) !! f =
                    match fields !! f with Some v => Some v | None => old !! f end)
  /\ (holds_hashmap k s = None ->
      exists s', (hSet k {[ "x" := VNumber 1 ]} None ;;;
                  hSet k {[ "y" := VNumber 2 ]} None ;;;
                  hGetAll k) s
                 = Returns (Some {[ "x" := VNumber 1; "y" := VNumber 2 ]}) s').
Proof.
  split; [|split].
  - intros Hh ttl. destruct (hSet_creates k fields ttl_arg s Hh) as [He Hs'].
    eexists. split; [exact He|].
    split; [reflexivity|]. split; [reflexivity|]. split; [reflexivity|].
    split; [by rewrite hGetAll_holds, Hs'|]. fold ttl. simpl.
    rewrite lookup_insert_eq. split; intros Ht.
    + by rewrite handleTTL_positive.
    + by rewrite handleTTL_not_positive.
  - intros old Hh. destruct (hSet_on_hashmap k fields old ttl_arg s Hh) as (l & Hl & He & Hs').
    eexists. split; [exact He|]. repeat split; try reflexivity.
    + by rewrite hGetAll_holds, Hs'.
    + intros f. destruct (fields !! f) as [v|] eqn:Hf.
      * by apply lookup_union_Some_l.
      * by rewrite lookup_union_r.
  - intros Hh.
    destruct (hSet_creates k {[ "x" := VNumber 1 ]} None s Hh) as [He1 Hs1].
    destruct (hSet_on_hashmap k {[ "y" := VNumber 2 ]} _ None _ Hs1) as (l & Hl & He2 & Hs2).
    eexists. unfold bind at 1. rewrite He1. unfold bind. rewrite He2.
    rewrite hGetAll_holds, Hs2. f_equal.
Qed.

Example hSet_arms_a_timer_for_a_new_hashmap :
  state_of (hSet "h" {[ "x" := VNumber 1 ]} (Some 5) fresh_store)
  = mkState 0 {[ "h" := mkEntry 5 (VObject 0) (Some 0%nat) ]} [OMap {[ "x" := VNumber 1 ]}]
      [mkTimer "h" 5000 Pending]
  /\ state_of (hSet "h" {[ "x" := VNumber 1 ]} (Some 0) fresh_store)
  = mkState 0 {[ "h" := mkEntry 0 (VObject 0) None ]} [OMap {[ "x" := VNumber 1 ]}] [].
Proof. by_evaluation. Qed.

Example hSet_then_hGetAll :
  exists s', (hSet "h" {[ "x" := VNumber 1 ]} None ;;;
              hSet "h" {[ "y" := VNumber 2 ]} None ;;;
              hGetAll "h") (LocalCache.new (Some 60) [] [])
             = Returns (Some {[ "x" := VNumber 1; "y" := VNumber 2 ]}) s'.
Proof. eexists. vm_compute. reflexivity. Qed.

(** ** [sAdd] and [sIsMember] *)

Lemma SameValueZero_eq (x y : CacheData) : SameValueZero x y = true <-> x = y.
Proof.
  destruct x, y; simpl; try (split; intros; congruence || done);
    rewrite bool_decide_eq_true; split; congruence.
Qed.

Lemma existsb_SameValueZero (x : CacheData) (ms : list CacheData) :
  existsb (SameValueZero x) ms = true <-> x ∈ ms.
Proof.
  rewrite existsb_exists. split.
  - intros (y & Hy & Hxy). apply SameValueZero_eq in Hxy as ->. by apply list_elem_of_In.
  - intros Hx. exists x. split; [by apply list_elem_of_In|by apply SameValueZero_eq].
Qed.

Lemma add_member_elem_of (ms : list CacheData) (x y : CacheData) :
  y ∈ add_member ms x <-> y ∈ ms \/ y = x.
Proof.
  unfold add_member. destruct (existsb (SameValueZero x) ms) eqn:He.
  - apply existsb_SameValueZero in He. split; [by left|]. by intros [?| ->].
  - rewrite elem_of_app, list_elem_of_singleton. done.
Qed.

Lemma add_member_NoDup (ms : list CacheData) (x : CacheData) :
  NoDup ms -> NoDup (add_member ms x).
Proof.
  intros Hnd. unfold add_member. destruct (existsb (SameValueZero x) ms) eqn:He; [done|].
  apply NoDup_app. split; [done|]. split; [|apply NoDup_singleton].
  intros y Hy ->%list_elem_of_singleton.
  apply existsb_SameValueZero in Hy. congruence.
Qed.

Lemma foldl_add_member_elem_of (ms0 ms : list CacheData) (y : CacheData) :
  y ∈ foldl add_member ms0 ms <-> y ∈ ms0 \/ y ∈ ms.
Proof.
  revert ms0. induction ms as [|x ms IH]; intros ms0; simpl.
  - rewrite elem_of_nil. tauto.
  - rewrite IH, add_member_elem_of, elem_of_cons. tauto.
Qed.

Lemma foldl_add_member_NoDup (ms0 ms : list CacheData) :
  NoDup ms0 -> NoDup (foldl add_member ms0 ms).
Proof.
  revert ms0. induction ms as [|x ms IH]; intros ms0 Hnd; simpl; [done|].
  by apply IH, add_member_NoDup.
Qed.

Lemma Set_add_fold (ms : list CacheData) (l : loc) (ms0 : list CacheData) (s : State) :
  heap s !! l = Some (OSet ms0) ->
  foldl (fun s member => Set_add (VObject l) member s) s ms =
    store_obj l (OSet (foldl add_member ms0 ms)) s.
Proof.
  revert ms0 s. induction ms as [|x ms IH]; intros ms0 s Hl; simpl.
  - by rewrite store_obj_id.
  - rewrite Hl. fold (add_member ms0 x).
    assert ((if existsb (SameValueZero x) ms0 then s
             else store_obj l (OSet (ms0 ++ [x])) s) = store_obj l (OSet (add_member ms0 x)) s) as ->.
    { unfold add_member. destruct (existsb (SameValueZero x) ms0); [|done].
      by rewrite store_obj_id. }
    rewrite (IH (add_member ms0 x)) by (by eapply store_obj_lookup).
    by rewrite store_obj_twice.
Qed.

Lemma holds_set_None (k : string) (s : State) :
  holds_set k s = None ->
  match data s !! k with
  | Some d => instanceof_Set s (value d) = false
  | None => True
  end.
Proof.
  unfold holds_set, instanceof_Set.
  destruct (data s !! k) as [[t [] h]|]; simpl; try done.
  destruct (heap s !! l) as [[]|]; done.
Qed.

Lemma holds_set_Some (k : string) (s : State) (ms : list CacheData) :
  holds_set k s = Some ms ->
  exists d l, data s !! k = Some d /\ value d = VObject l /\
    heap s !! l = Some (OSet ms) /\ instanceof_Set s (value d) = true.
Proof.
  unfold holds_set, instanceof_Set.
  destruct (data s !! k) as [[t [] h]|]; simpl; try done.
  destruct (heap s !! l) as [[]|] eqn:Hl; try done.
  intros [= ->]. exists (mkEntry t (VObject l) h), l. simpl. by rewrite Hl.
Qed.

Lemma sIsMember_holds (k : string) (m : CacheData) (s : State) :
  sIsMember k m s =
    Returns (match holds_set k s with
             | Some ms => existsb (SameValueZero m) ms
             | None => false
             end) s.
Proof.
  unfold sIsMember, holds_set, instanceof_Set, Set_has.
  destruct (data s !! k) as [[t [] h]|]; simpl; try done.
  destruct (heap s !! l) as [[]|]; done.
Qed.

Lemma sAdd_create_eq (k : string) (s : State) :
  exists t ts,
    sAdd_create k s =
      (VObject (length (heap s)),
       mkState (_TTL s) (<[k := mkEntry (_TTL s) (VObject (length (heap s))) t]> (data s))
         (heap s ++ [OSet []]) ts).
Proof.
  unfold sAdd_create. destruct (_TTL s >? 0); simpl; eexists _, _; reflexivity.
Qed.

Lemma sAdd_holds (k : string) (ms : list CacheData) (s : State) :
  exists s', sAdd k ms s = Returns tt s' /\
    holds_set k s' = Some (foldl add_member (default [] (holds_set k s)) ms).
Proof.
  destruct (holds_set k s) as [old|] eqn:Hh.
  - apply holds_set_Some in Hh as (d & l & Hd & Hv & Hl & Hi).
    unfold sAdd. rewrite Hd, Hi, Hv. rewrite (Set_add_fold _ l old) by done.
    eexists. split; [reflexivity|].
    unfold holds_set. simpl. rewrite Hd. destruct d as [t v h]; simpl in *. subst v.
    by rewrite list_lookup_insert_eq by (by eapply lookup_lt_Some).
  - apply holds_set_None in Hh.
    assert (sAdd k ms s =
              Returns tt (foldl (fun s0 member => Set_add (sAdd_create k s).1 member s0)
                            (sAdd_create k s).2 ms)) as ->.
    { unfold sAdd. destruct (data s !! k) as [d|]; [rewrite Hh|];
        by destruct (sAdd_create k s). }
    destruct (sAdd_create_eq k s) as (t & ts & ->). cbn [fst snd].
    rewrite (Set_add_fold _ _ []).
    2:{ simpl. rewrite lookup_app_r by done. by rewrite Nat.sub_diag. }
    eexists. split; [reflexivity|].
    unfold holds_set. simpl. rewrite lookup_insert_eq.
    rewrite list_lookup_insert_eq by (rewrite length_app; simpl; lia). done.
Qed.

(** C2, as the code has it.  [sAdd] returns and leaves a Set under the key
    whose members are those it had before and those given, and no others;
    when the members before were pairwise distinct (none, for a Set that
    [sAdd] creates), so are the members after: two members that are the
    same value take one slot.  [sIsMember] answers by [SameValueZero] against
    the members, and answers false for an absent key and for a value that
    is no Set.  Being the same value is equality of the primitive or
    identity of the reference, not equality of contents. *)
Theorem sAdd_dedups_by_SameValueZero (k : string) (ms : list CacheData) (s : State) :
  (exists s' members,
     sAdd k ms s = Returns tt s' /\
     holds_set k s' = Some members /\
     (forall x, x ∈ members <-> x ∈ default [] (holds_set k s) \/ x ∈ ms) /\
     (NoDup (default [] (holds_set k s)) -> NoDup members) /\
     (forall m, exists b, sIsMember k m s' = Returns b s' /\ (b = true <-> m ∈ members)))
  /\ (forall m, holds_set k s = None -> sIsMember k m s = Returns false s)
  /\ (forall m members, holds_set k s = Some members ->
        sIsMember k m s = Returns (existsb (SameValueZero m) members) s)
  /\ (forall x y, SameValueZero x y = true <-> x = y)
  /\ (forall l l', VObject l = VObject l' <-> l = l').
Proof.
  split; [|split; [|split; [|split]]].
  - destruct (sAdd_holds k ms s) as (s' & He & Hs').
    exists s', (foldl add_member (default [] (holds_set k s)) ms).
    split; [done|]. split; [done|].
    split; [intros x; apply foldl_add_member_elem_of|].
    split; [apply foldl_add_member_NoDup|].
    intros m. eexists. split.
    + rewrite sIsMember_holds, Hs'. reflexivity.
    + apply existsb_SameValueZero.
  - intros m Hh. by rewrite sIsMember_holds, Hh.
  - intros m members Hh. by rewrite sIsMember_holds, Hh.
  - apply SameValueZero_eq.
  - intros l l'. split; congruence.
Qed.

Example sAdd_of_primitives :
  holds_set "s" (state_of (sAdd "s" [VNumber 1; VNumber 1; VNumber 2] fresh_store))
    = Some [VNumber 1; VNumber 2]
  /\ result_of ((sAdd "s" [VNumber 1; VNumber 1; VNumber 2] ;;; sIsMember "s" (VNumber 1))
                  fresh_store) = Some true.
Proof. by_evaluation. Qed.

(** C2, as the specification has it, fails: two arrays with the same
    contents are equal under deep comparison, yet [sAdd] keeps both, and
    [sIsMember] of the one is false when the other was added. *)
Lemma sAdd_is_not_deep :
  deep_equal 2 two_arrays (VObject 0) (VObject 1) = true
  /\ holds_set "s" (state_of (sAdd "s" [VObject 0; VObject 1] (LocalCache.new None two_arrays [])))
     = Some [VObject 0; VObject 1]
  /\ result_of ((sAdd "s" [VObject 0] ;;; sIsMember "s" (VObject 1))
                  (LocalCache.new None two_arrays []))
     = Some false.
Proof. by_evaluation. Qed.

(** ** The list operations *)

Lemma holds_list_None (k : string) (s : State) :
  holds_list k s = None ->
  match data s !! k with
  | Some d => Array_isArray s (value d) = false
  | None => True
  end.
Proof.
  unfold holds_list, Array_isArray.
  destruct (data s !! k) as [[t [] h]|]; simpl; try done.
  destruct (heap s !! l) as [[]|]; done.
Qed.

Lemma holds_list_Some (k : string) (s : State) (es : list CacheData) :
  holds_list k s = Some es ->
  exists d l ps, data s !! k = Some d /\ value d = VObject l /\
    heap s !! l = Some (OArray es ps) /\ Array_isArray s (value d) = true /\
    Array_length (value d) s = Z.of_nat (length es).
Proof.
  unfold holds_list, Array_isArray, Array_length.
  destruct (data s !! k) as [[t [] h]|]; simpl; try done.
  destruct (heap s !! l) as [[]|] eqn:Hl; try done.
  intros [= ->]. exists (mkEntry t (VObject l) h), l, props. simpl. by rewrite Hl.
Qed.

(** The elements under [k] after the array behind its entry was replaced. *)
Lemma holds_list_store (k : string) (d : Entry) (l : loc) (o : Obj)
    (es : list CacheData) (ps : gmap Z CacheData) (s : State) :
  data s !! k = Some d -> value d = VObject l -> heap s !! l = Some o ->
  holds_list k (store_obj l (OArray es ps) s) = Some es.
Proof.
  intros Hd Hv Hl. unfold holds_list. simpl. rewrite Hd.
  destruct d as [t v h]; simpl in *; subst v.
  by rewrite list_lookup_insert_eq by (by eapply lookup_lt_Some).
Qed.

(** C6.  [lPop] always returns.  Under a key that holds a List the last
    element is removed (an empty List stays empty) and the entries and the
    timers are as before; under an absent key and under a key that holds
    something else the state is unchanged. *)
Theorem lPop_never_throws (k : string) (s : State) :
  exists s', lPop k s = Returns tt s' /\
    (forall es, holds_list k s = Some es ->
       holds_list k s' = Some (removelast es) /\
       data s' = data s /\ timers s' = timers s) /\
    (forall init x, holds_list k s = Some (init ++ [x]) -> holds_list k s' = Some init) /\
    (holds_list k s = None -> s' = s).
Proof.
  destruct (holds_list k s) as [es|] eqn:Hh.
  - apply holds_list_Some in Hh as (d & l & ps & Hd & Hv & Hl & Hi & _).
    unfold lPop. rewrite Hd, Hi. unfold Array_pop. rewrite Hv, Hl.
    eexists. split; [reflexivity|].
    assert (holds_list k (store_obj l (OArray (removelast es) ps) s) = Some (removelast es)) as Hr
      by (by eapply holds_list_store).
    split; [|split]; [| |done].
    + intros ? [= <-]. done.
    + intros init x [= ->]. by rewrite Hr, removelast_last.
  - apply holds_list_None in Hh. unfold lPop.
    exists s. destruct (data s !! k) as [d|]; [rewrite Hh|]; done.
Qed.

Example lPop_on_a_list_and_on_nothing :
  holds_list "l" (state_of (lPop "l" three_elements)) = Some [VNumber 1; VNumber 2]
  /\ lPop "absent" three_elements = Returns tt three_elements
  /\ lPop "s" (state_of (set "s" (VString "v") None three_elements))
     = Returns tt (state_of (set "s" (VString "v") None three_elements)).
Proof. by_evaluation. Qed.

(** C5.  [lSet] throws [InvalidKey] for an absent key and [InvalidKeyType]
    for a key that holds no List.  For a List of n elements it throws
    [OutOfIndex] exactly when the index is above n - 1; any other index,
    the negative ones too, is accepted: from 0 on an element is replaced,
    below 0 the elements stay as they are.  So the index n is refused and
    the index n - 1 is not. *)
Theorem lSet_checks_the_upper_bound_only (k : string) (index : Z) (v : CacheData) (s : State) :
  (data s !! k = None -> lSet k index v s = Throws (MkError CacheErrors.InvalidKey) s)
  /\ (is_Some (data s !! k) -> holds_list k s = None ->
      lSet k index v s = Throws (MkError CacheErrors.InvalidKeyType) s)
  /\ (forall es, holds_list k s = Some es ->
      let n := Z.of_nat (length es) in
      (lSet k index v s = Throws (MkError CacheErrors.OutOfIndex) s <-> index > n - 1)
      /\ (index <= n - 1 ->
          exists s', lSet k index v s = Returns tt s' /\
            holds_list k s' = Some (if index <? 0 then es else <[Z.to_nat index := v]> es))
      /\ lSet k n v s = Throws (MkError CacheErrors.OutOfIndex) s
      /\ (exists s', lSet k (n - 1) v s = Returns tt s')).
Proof.
  split; [|split].
  - intros Hd. unfold lSet. by rewrite Hd.
  - intros [d Hd] Hh. apply holds_list_None in Hh. rewrite Hd in Hh.
    unfold lSet. by rewrite Hd, Hh.
  - intros es Hh n.
    apply holds_list_Some in Hh as (d & l & ps & Hd & Hv & Hl & Hi & Hlen).
    assert (forall i, i > n - 1 -> lSet k i v s = Throws (MkError CacheErrors.OutOfIndex) s) as Hhi.
    { intros i Hi'. unfold lSet. rewrite Hd, Hi, Hlen. simpl. fold n.
      destruct (Z.gtb_spec i (n - 1)); [done|lia]. }
    assert (forall i, i <= n - 1 ->
              exists s', lSet k i v s = Returns tt s' /\
                holds_list k s' = Some (if i <? 0 then es else <[Z.to_nat i := v]> es)) as Hlo.
    { intros i Hi'. unfold lSet. rewrite Hd, Hi, Hlen. simpl. fold n.
      destruct (Z.gtb_spec i (n - 1)); [lia|].
      eexists. split; [reflexivity|].
      unfold Array_put. rewrite Hv, Hl.
      assert (forall s0, data s0 !! k = Some d ->
                holds_list k (with_data (fun m => <[k := d]> m) s0) = holds_list k s0) as Hsame.
      { intros s0 Hd0. by rewrite with_data_insert_same. }
      destruct (i <? 0); (rewrite Hsame by done); by eapply holds_list_store. }
    split; [|split; [|split]].
    + split; [|apply Hhi]. intros He.
      destruct (Z_gt_le_dec index (n - 1)) as [|Hle]; [done|].
      destruct (Hlo index Hle) as (s' & He' & _). congruence.
    + apply Hlo.
    + apply Hhi. lia.
    + destruct (Hlo (n - 1)) as (s' & He' & _); [lia|]. by exists s'.
Qed.

Example lSet_at_the_bounds :
  let s := state_of (lPush "list" [VNumber 1; VNumber 2; VNumber 3] fresh_store) in
  lLen "list" s = Returns 3 s
  /\ lSet "list" 3 (VNumber 9) s = Throws (MkError CacheErrors.OutOfIndex) s
  /\ holds_list "list" (state_of (lSet "list" 2 (VNumber 9) s))
     = Some [VNumber 1; VNumber 2; VNumber 9]
  /\ holds_list "list" (state_of (lSet "list" (-1) (VNumber 9) s))
     = Some [VNumber 1; VNumber 2; VNumber 3].
Proof. by_evaluation. Qed.

(** The state after [lPush] under a key whose entry [d] holds no List:
    a new array with the values pushed, the entry with a new value. *)
Lemma lPush_on_non_list (k : string) (values : list CacheData) (d : Entry) (s : State) :
  data s !! k = Some d -> Array_isArray s (value d) = false ->
  lPush k values s =
    Returns tt (mkState (_TTL s)
                  (<[k := mkEntry (ttl d) (VObject (length (heap s))) (timeout d)]> (data s))
                  (heap s ++ [OArray values ∅])
                  (timers s)).
Proof.
  intros Hd Hi. unfold lPush. rewrite Hd, Hi. simpl.
  unfold Array_push. simpl.
  rewrite lookup_app_r by done. rewrite Nat.sub_diag. simpl.
  unfold with_data, store_obj, with_heap. simpl. do 2 f_equal.
  rewrite insert_app_r_alt by done. by rewrite Nat.sub_diag.
Qed.

(** The state after [lPush] under an absent key. *)
Lemma lPush_on_absent (k : string) (values : list CacheData) (s : State) :
  data s !! k = None ->
  lPush k values s =
    Returns tt (mkState (_TTL s)
                  (<[k := mkEntry (_TTL s) (VObject (length (heap s)))
                             (handleTTL k (_TTL s) s).1]> (data s))
                  (heap s ++ [OArray values ∅])
                  (timers (handleTTL k (_TTL s) s).2)).
Proof.
  intros Hd. unfold lPush. rewrite Hd.
  destruct (handleTTL_frame k (_TTL s) s) as (H1 & H2 & H3).
  destruct (handleTTL k (_TTL s) s) as [h s1]; simpl in *.
  unfold Array_isArray. simpl.
  rewrite lookup_app_r by done. rewrite Nat.sub_diag. simpl.
  unfold Array_push. simpl.
  rewrite lookup_app_r by done. rewrite Nat.sub_diag. simpl.
  unfold with_data, store_obj, with_heap. simpl. rewrite H1, H2, H3. do 2 f_equal.
  rewrite insert_app_r_alt by done. by rewrite Nat.sub_diag.
Qed.

(** C9.  Under a key whose entry holds no List, [lPush] gives the entry a
    new array that holds the values pushed and keeps the ttl and the timer
    handle of the entry; no timer is scheduled or cancelled.  Under an
    absent key the entry is created with the default ttl of the store and
    the handle of [handleTTL] for it: a new pending timer when that ttl is
    positive. *)
Theorem lPush_on_non_list_keeps_ttl_and_timer (k : string) (values : list CacheData)
    (s : State) :
  (forall d, data s !! k = Some d -> holds_list k s = None ->
     exists s', lPush k values s = Returns tt s' /\
       data s' = <[k := mkEntry (ttl d) (VObject (length (heap s))) (timeout d)]> (data s) /\
       holds_list k s' = Some values /\
       getTTL k s' = Returns (ttl d) s' /\
       timers s' = timers s /\
       _TTL s' = _TTL s)
  /\ (data s !! k = None ->
      exists s', lPush k values s = Returns tt s' /\
        data s' = <[k := mkEntry (_TTL s) (VObject (length (heap s)))
                           (handleTTL k (_TTL s) s).1]> (data s) /\
        holds_list k s' = Some values /\
        timers s' = timers (handleTTL k (_TTL s) s).2 /\
        (_TTL s > 0 ->
         (handleTTL k (_TTL s) s).1 = Some (length (timers s)) /\
         timers s' = timers s ++ [mkTimer k (Timeout_after (_TTL s * 1000)) Pending])).
Proof.
  split.
  - intros d Hd Hh. apply holds_list_None in Hh. rewrite Hd in Hh.
    rewrite (lPush_on_non_list k values d s Hd Hh).
    eexists. split; [reflexivity|]. simpl.
    split; [done|]. split; [|split; [|done]].
    + unfold holds_list. simpl. rewrite lookup_insert_eq.
      rewrite lookup_app_r by done. by rewrite Nat.sub_diag.
    + unfold getTTL. simpl. by rewrite lookup_insert_eq.
  - intros Hd. rewrite (lPush_on_absent k values s Hd).
    eexists. split; [reflexivity|]. simpl.
    split; [done|]. split; [|split; [done|]].
    + unfold holds_list. simpl. rewrite lookup_insert_eq.
      rewrite lookup_app_r by done. by rewrite Nat.sub_diag.
    + intros Hpos. by rewrite handleTTL_positive.
Qed.

Example lPush_over_a_string :
  let s := state_of (set "k" (VString "v") (Some 5) (LocalCache.new (Some 300) [] [])) in
  state_of (lPush "k" [VNumber 1; VNumber 2] s)
  = mkState 300 {[ "k" := mkEntry 5 (VObject 0) (Some 0%nat) ]}
      [OArray [VNumber 1; VNumber 2] ∅] [mkTimer "k" 5000 Pending].
Proof. by_evaluation. Qed.

(** [splice] of one element at a position of the list is [delete]. *)
Lemma splice_one (es : list CacheData) (i : Z) :
  i <= Z.of_nat (length es) - 1 ->
  splice es i 1 =
    delete (Z.to_nat (if i <? 0 then Z.max (Z.of_nat (length es) + i) 0 else i)) es.
Proof.
  intros Hi. unfold splice.
  set (n := Z.of_nat (length es)) in *.
  set (a := if i <? 0 then Z.max (n + i) 0 else Z.min i n).
  assert (a = if i <? 0 then Z.max (n + i) 0 else i) as Ha.
  { unfold a. destruct (i <? 0); lia. }
  assert (0 <= a <= n) as Hr.
  { unfold a. destruct (Z.ltb_spec i 0); lia. }
  rewrite <- Ha. clearbody a. rewrite delete_take_drop. f_equal.
  destruct (decide (a = n)) as [->|Hne].
  - rewrite !drop_ge; [done| |]; unfold n; lia.
  - f_equal. lia.
Qed.

Lemma delete_last (es : list CacheData) :
  es <> [] -> delete (Nat.pred (length es)) es = removelast es.
Proof.
  induction es as [|a es IH]; [done|]. intros _.
  destruct es as [|b es]; [done|].
  change (delete (S (Nat.pred (length (b :: es)))) (a :: b :: es)
          = a :: removelast (b :: es)).
  simpl delete. f_equal. by apply IH.
Qed.

(** C10.  For a List of n >= 1 elements and a negative index i,
    [lRemIndex] returns: it removes the element at position n + i when
    -n <= i (the last one for i = -1) and the first element when i < -n.
    One element goes in either case. *)
Theorem lRemIndex_negative_index (k : string) (i : Z) (es : list CacheData) (s : State) :
  holds_list k s = Some es -> (1 <= length es)%nat -> i < 0 ->
  exists s' es',
    lRemIndex k i s = Returns tt s' /\
    holds_list k s' = Some es' /\
    (- Z.of_nat (length es) <= i -> es' = delete (Z.to_nat (Z.of_nat (length es) + i)) es) /\
    (i = -1 -> es' = removelast es) /\
    (i < - Z.of_nat (length es) -> es' = delete 0%nat es) /\
    S (length es') = length es.
Proof.
  intros Hh Hn Hi.
  apply holds_list_Some in Hh as (d & l & ps & Hd & Hv & Hl & Hia & Hlen).
  exists (with_data (fun m => <[k := d]> m) (Array_splice (value d) i 1 s)),
         (delete (Z.to_nat (Z.max (Z.of_nat (length es) + i) 0)) es).
  split; [|split; [|split; [|split; [|split]]]].
  - unfold lRemIndex. rewrite Hd, Hia, Hlen. simpl.
    destruct (Z.gtb_spec i (Z.of_nat (length es) - 1)); [lia|done].
  - unfold Array_splice. rewrite Hv, Hl.
    rewrite with_data_insert_same by done.
    rewrite splice_one by lia. destruct (Z.ltb_spec i 0); [|lia].
    by eapply holds_list_store.
  - intros Hge. by rewrite Z.max_l by lia.
  - intros ->. rewrite Z.max_l by lia.
    replace (Z.to_nat (Z.of_nat (length es) + -1)) with (Nat.pred (length es)) by lia.
    apply delete_last. intros ->. simpl in Hn. lia.
  - intros Hlt. by rewrite Z.max_r by lia.
  - rewrite length_delete.
    + lia.
    + apply lookup_lt_is_Some. lia.
Qed.

(** The List 1, 2, 3 and the index -1. *)
Lemma lRemIndex_negative_index_witness :
  exists s' es',
    lRemIndex "l" (-1) three_elements = Returns tt s' /\
    holds_list "l" s' = Some es' /\
    (- Z.of_nat (length [VNumber 1; VNumber 2; VNumber 3]) <= -1 ->
     es' = delete (Z.to_nat (Z.of_nat (length [VNumber 1; VNumber 2; VNumber 3]) + -1))
             [VNumber 1; VNumber 2; VNumber 3]) /\
    (-1 = -1 -> es' = removelast [VNumber 1; VNumber 2; VNumber 3]) /\
    (-1 < - Z.of_nat (length [VNumber 1; VNumber 2; VNumber 3]) ->
     es' = delete 0%nat [VNumber 1; VNumber 2; VNumber 3]) /\
    S (length es') = length [VNumber 1; VNumber 2; VNumber 3].
Proof.
  apply (lRemIndex_negative_index "l" (-1) [VNumber 1; VNumber 2; VNumber 3] three_elements).
  - reflexivity.
  - simpl. lia.
  - lia.
Defined.

Example lRemIndex_from_the_end :
  holds_list "l" (state_of (lRemIndex "l" (-1) three_elements)) = Some [VNumber 1; VNumber 2]
  /\ holds_list "l" (state_of (lRemIndex "l" (-2) three_elements)) = Some [VNumber 1; VNumber 3]
  /\ holds_list "l" (state_of (lRemIndex "l" (-7) three_elements)) = Some [VNumber 2; VNumber 3]
  /\ lRemIndex "l" 3 three_elements = Throws (MkError CacheErrors.OutOfIndex) three_elements.
Proof. by_evaluation. Qed.

(** ** [scan] *)

Lemma is_syntax_char_false (c : ascii) :
  is_syntax_char c = false ->
  Ascii.eqb c "*" = false /\ Ascii.eqb c "^" = false /\ Ascii.eqb c "$" = false /\
  Ascii.eqb c "." = false /\ Ascii.eqb c "\" = false.
Proof.
  unfold is_syntax_char. simpl. rewrite !orb_false_iff. tauto.
Qed.

Lemma escape_starts_without_star (p : string) :
  starts_with_star (escape_syntax_chars p) = false.
Proof.
  destruct p as [|c p]; simpl; [done|].
  destruct (is_syntax_char c) eqn:Hc; simpl; [done|].
  by apply is_syntax_char_false in Hc as (-> & _).
Qed.

(** On an escaped pattern the second replacement works character by
    character of the pattern: a backslash and a star it finds are the two
    characters that the first replacement put for a star. *)
Lemma replace_escape_cons (c : ascii) (p : string) :
  replace_escaped_stars (escape_syntax_chars (String c p)) =
    (translate c ++ replace_escaped_stars (escape_syntax_chars p))%string.
Proof.
  unfold translate. simpl escape_syntax_chars.
  pose proof (escape_starts_without_star p) as Hp.
  destruct (Ascii.eqb c "*") eqn:Hstar.
  - apply Ascii.eqb_eq in Hstar as ->. reflexivity.
  - destruct (is_syntax_char c) eqn:Hc.
    + simpl. rewrite Hstar. f_equal.
      destruct (Ascii.eqb c "\"); [|done].
      destruct (escape_syntax_chars p) as [|d e]; [done|].
      simpl in Hp. by rewrite Hp.
    + apply is_syntax_char_false in Hc as (_ & _ & _ & _ & Hb).
      cbn [replace_escaped_stars]. by rewrite Hb.
Qed.

Lemma replace_escape_starts_without_star (p tail : string) :
  starts_with_star tail = false ->
  starts_with_star (replace_escaped_stars (escape_syntax_chars p) ++ tail)%string = false.
Proof.
  intros Ht. destruct p as [|c p]; [done|].
  rewrite replace_escape_cons. unfold translate.
  destruct (Ascii.eqb c "*") eqn:Hstar; [done|].
  destruct (is_syntax_char c); simpl; [done|]. done.
Qed.

Lemma parse_pattern_pending (a : Atom) (src : string) :
  starts_with_star src = false ->
  parse_pattern (Some a) src = cons (One a) <$> parse_pattern None src.
Proof.
  destruct src as [|c src]; simpl; [done|]. intros ->.
  match goal with |- _ <$> ?x = _ => by destruct x end.
Qed.

Lemma parse_glob (p : string) :
  parse_pattern None (replace_escaped_stars (escape_syntax_chars p) ++ "$")%string =
    Some (glob_terms p ++ [AssertEnd]).
Proof.
  induction p as [|c p IH]; [done|].
  rewrite replace_escape_cons.
  pose proof (replace_escape_starts_without_star p "$" eq_refl) as Hns.
  set (R := (replace_escaped_stars (escape_syntax_chars p) ++ "$")%string) in *.
  unfold translate. cbn [glob_terms].
  destruct (Ascii.eqb c "*") eqn:Hstar.
  - change ((".*" ++ replace_escaped_stars (escape_syntax_chars p)) ++ "$")%string
      with (String "." (String "*" R)).
    simpl. by rewrite IH.
  - destruct (is_syntax_char c) eqn:Hc.
    + change ((String "\" (String c "") ++ replace_escaped_stars (escape_syntax_chars p)) ++ "$")%string
        with (String "\" (String c R)).
      cbn [parse_pattern]. change (Ascii.eqb "\" "*") with false.
      change (Ascii.eqb "\" "^") with false. change (Ascii.eqb "\" "$") with false.
      change (Ascii.eqb "\" ".") with false. change (Ascii.eqb "\" "\") with true.
      cbn iota. rewrite Hc. rewrite parse_pattern_pending by done.
      by rewrite IH.
    + change ((String c "" ++ replace_escaped_stars (escape_syntax_chars p)) ++ "$")%string
        with (String c R).
      pose proof Hc as Hc'.
      apply is_syntax_char_false in Hc' as (H1 & H2 & H3 & H4 & H5).
      cbn [parse_pattern]. rewrite H1, H2, H3, H4, H5, Hc.
      rewrite parse_pattern_pending by done.
      by rewrite IH.
Qed.

(** No pattern makes [scan] build a source that [RegExp] refuses. *)
Lemma scan_source_parses (p : string) :
  RegExp (scan_source p) = Some (AssertStart :: glob_terms p ++ [AssertEnd]).
Proof.
  unfold RegExp, scan_source. cbn [parse_pattern].
  change (Ascii.eqb "^" "*") with false. change (Ascii.eqb "^" "^") with true.
  cbn iota. by rewrite parse_glob.
Qed.

Lemma star_loop_absorb (rest : bool -> string -> bool) (rest' : string -> bool)
    (b : bool) (k : string) :
  (forall b k, rest b k = rest' k) ->
  star_loop Dot rest b k = absorb_loop (fun c => negb (is_line_terminator c)) rest' k.
Proof.
  intros Hr. revert b. induction k as [|c k IH]; intros b; simpl; [done|].
  by rewrite IH, Hr.
Qed.

(** The terms that [scan] builds match a whole key exactly as the glob
    whose star takes no line terminator. *)
Lemma match_here_glob (p : string) (b : bool) (k : string) :
  match_here (glob_terms p ++ [AssertEnd]) b k = glob_match_on_a_line p k.
Proof.
  unfold glob_match_on_a_line. revert b k.
  induction p as [|c p IH]; intros b k; simpl.
  - by destruct k.
  - destruct (Ascii.eqb c "*"); simpl.
    + by apply star_loop_absorb.
    + destruct k as [|d k]; [done|]. by rewrite IH.
Qed.

Lemma search_from_anchored (ts : list Term) (k : string) :
  search_from (AssertStart :: ts) true k = match_here ts true k.
Proof.
  assert (forall k, search_from (AssertStart :: ts) false k = false) as Hno.
  { clear k. induction k as [|c k IH]; simpl; [done|]. exact IH. }
  destruct k as [|c k]; simpl; [by rewrite orb_false_r|].
  by rewrite Hno, orb_false_r.
Qed.

(** What [scan] returns: the keys of the store, filtered by the glob whose
    star takes no line terminator; the state is not changed. *)
Lemma scan_eq (p : string) (s : State) :
  scan p s = Returns (List.filter (glob_match_on_a_line p) (map_to_list (data s)).*1) s.
Proof.
  unfold scan. rewrite scan_source_parses. f_equal.
  apply List.filter_ext. intros k. unfold RegExp_test.
  by rewrite search_from_anchored, match_here_glob.
Qed.

Lemma elem_of_keys (m : gmap string Entry) (k : string) :
  k ∈ (map_to_list m).*1 <-> is_Some (m !! k).
Proof.
  rewrite list_elem_of_fmap. split.
  - intros ([k' e] & -> & He). apply elem_of_map_to_list in He. by exists e.
  - intros [e He]. exists (k, e). split; [done|]. by apply elem_of_map_to_list.
Qed.

(** [scan] never throws; it returns the present keys that the pattern
    matches, each once, where a star matches any substring without a line
    terminator and every other character of the pattern matches itself. *)
Lemma scan_spec (p : string) (s : State) :
  exists ks, scan p s = Returns ks s /\ NoDup ks /\
    forall k, k ∈ ks <-> is_Some (data s !! k) /\ glob_match_on_a_line p k = true.
Proof.
  eexists. split; [apply scan_eq|]. split.
  - apply NoDup_ListNoDup, List.NoDup_filter, NoDup_ListNoDup, NoDup_fst_map_to_list.
  - intros k. rewrite list_elem_of_In, List.filter_In, <- list_elem_of_In.
    by rewrite elem_of_keys.
Qed.

(** The two globs agree on a key without a line terminator. *)
Lemma glob_match_without_line_terminator (p k : string) :
  forallb (fun c => negb (is_line_terminator c)) (list_ascii_of_string k) = true ->
  glob_match_on_a_line p k = glob_match p k.
Proof.
  unfold glob_match_on_a_line, glob_match. revert k.
  induction p as [|c p IH]; intros k Hk; simpl; [done|].
  destruct (Ascii.eqb c "*").
  - induction k as [|d k IHk]; simpl in *; [by apply IH|].
    apply andb_true_iff in Hk as [Hd Hk].
    rewrite Hd, IHk by done. rewrite IH; [done|]. simpl. by rewrite Hd, Hk.
  - destruct k as [|d k]; [done|]. simpl in Hk.
    apply andb_true_iff in Hk as [_ Hk]. by rewrite IH.
Qed.

(** So for a store whose keys have no line terminator, [scan] returns the
    keys that the glob of the specification matches. *)
Lemma scan_glob (p : string) (s : State) :
  (forall k, is_Some (data s !! k) ->
     forallb (fun c => negb (is_line_terminator c)) (list_ascii_of_string k) = true) ->
  exists ks, scan p s = Returns ks s /\ NoDup ks /\
    forall k, k ∈ ks <-> is_Some (data s !! k) /\ glob_match p k = true.
Proof.
  intros Hkeys. destruct (scan_spec p s) as (ks & He & Hnd & Hks).
  exists ks. split; [done|]. split; [done|]. intros k. rewrite Hks. split.
  - intros [Hin Hm]. split; [done|]. by rewrite <- glob_match_without_line_terminator by auto.
  - intros [Hin Hm]. split; [done|]. by rewrite glob_match_without_line_terminator by auto.
Qed.

Example scan_users :
  result_of (scan "users:*"
               (state_of ((set "users:1" (VNumber 1) None ;;;
                           set "users:2" (VNumber 2) None ;;;
                           set "admins:1" (VNumber 3) None) fresh_store)))
  = Some ["users:1"; "users:2"].
Proof. by_evaluation. Qed.

Example scan_takes_other_characters_literally :
  result_of (scan "a.c" (state_of ((set "abc" (VNumber 1) None ;;;
                                    set "a.c" (VNumber 2) None) fresh_store)))
  = Some ["a.c"].
Proof. by_evaluation. Qed.

(** C7.  A key with a line feed in it is present and the glob of the
    specification matches it (a star matches any substring), yet [scan]
    leaves it out: the dot that stands for the star takes no line
    terminator. *)
Theorem scan_omits_key_with_line_feed :
  exists_ two_lines (state_of (set two_lines (VNumber 1) None fresh_store))
    = Returns true (state_of (set two_lines (VNumber 1) None fresh_store))
  /\ glob_match "a*b" two_lines = true
  /\ glob_match "*" two_lines = true
  /\ result_of (scan "a*b" (state_of (set two_lines (VNumber 1) None fresh_store))) = Some []
  /\ result_of (scan "*" (state_of (set two_lines (VNumber 1) None fresh_store))) = Some [].
Proof. by_evaluation. Qed.

(** * Further properties of the operations *)

(** ** The keyspace *)

(** After [set] the key is present with the value given and the ttl given
    (the default ttl of the store when none is given); the other keys and
    the objects of the heap are as before. *)
Theorem set_then_read (k k' : string) (v : CacheData) (ttl_arg : option Z) (s : State) :
  exists s', set k v ttl_arg s = Returns tt s' /\
    get k s' = Returns (Some v) s' /\
    exists_ k s' = Returns true s' /\
    getTTL k s' = Returns (default (_TTL s) ttl_arg) s' /\
    heap s' = heap s /\
    (k' <> k -> data s' !! k' = data s !! k').
Proof.
  unfold set, handleTTL.
  destruct (default (_TTL s) ttl_arg <=? 0); simpl; eexists; (split; [reflexivity|]);
    unfold get, exists_, getTTL; simpl; rewrite lookup_insert_eq; simpl;
    (repeat split; try done); intros Hne; by rewrite lookup_insert_ne.
Qed.

Lemma foldl_delete_lookup (keys : list string) (m : gmap string Entry) (k : string) :
  foldl (fun d key => delete key d) m keys !! k =
    if bool_decide (k ∈ keys) then None else m !! k.
Proof.
  revert m. induction keys as [|k0 keys IH]; intros m; simpl; [done|].
  rewrite IH. destruct (decide (k = k0)) as [->|Hne].
  - rewrite lookup_delete_eq. rewrite (bool_decide_eq_true_2 (k0 ∈ k0 :: keys)) by left.
    by destruct (bool_decide (k0 ∈ keys)).
  - rewrite lookup_delete_ne by done.
    destruct (decide (k ∈ keys)) as [Hin|Hnin].
    + rewrite !bool_decide_eq_true_2; [done| by right | done].
    + rewrite !bool_decide_eq_false_2; [done| |done].
      by intros [?|?]%elem_of_cons.
Qed.

(** [del] removes the keys given and no other key; keys that are absent
    are passed over.  It cancels no timer: the table of timers is as
    before. *)
Theorem del_removes_the_keys_given (keys : list string) (k : string) (s : State) :
  exists s', del keys s = Returns tt s' /\
    data s' !! k = (if bool_decide (k ∈ keys) then None else data s !! k) /\
    timers s' = timers s /\
    heap s' = heap s.
Proof.
  eexists. split; [reflexivity|]. simpl. by rewrite foldl_delete_lookup.
Qed.

Lemma handleTTL_positive' (k : string) (t : Z) (s : State) :
  t > 0 ->
  handleTTL k t s =
    (Some (length (timers s)),
     mkState (_TTL s) (data s) (heap s) (timers s ++ [mkTimer k (Timeout_after (t * 1000)) Pending])).
Proof. intros Ht. by rewrite handleTTL_positive. Qed.

(** [set] with a positive ttl arms one timer for the key and records its
    handle; when that timer fires the key is gone.  The delay of the timer
    is ttl * 1000 milliseconds when that is at most [TIMEOUT_MAX], and 1
    millisecond when it is more.  With a ttl of 0 or less no timer is armed
    and no handle is recorded. *)
Theorem set_arms_expiration (k : string) (v : CacheData) (ttl_arg : option Z) (s : State) :
  (default (_TTL s) ttl_arg > 0 ->
   exists s' delay, set k v ttl_arg s = Returns tt s' /\
     data s' !! k = Some (mkEntry (default (_TTL s) ttl_arg) v (Some (length (timers s)))) /\
     timers s' = timers s ++ [mkTimer k delay Pending] /\
     (default (_TTL s) ttl_arg * 1000 <= TIMEOUT_MAX ->
      delay = default (_TTL s) ttl_arg * 1000) /\
     (default (_TTL s) ttl_arg * 1000 > TIMEOUT_MAX -> delay = 1) /\
     get k (fire (length (timers s)) s') = Returns None (fire (length (timers s)) s') /\
     exists_ k (fire (length (timers s)) s') = Returns false (fire (length (timers s)) s'))
  /\ (default (_TTL s) ttl_arg <= 0 ->
      exists s', set k v ttl_arg s = Returns tt s' /\
        data s' !! k = Some (mkEntry (default (_TTL s) ttl_arg) v None) /\
        timers s' = timers s).
Proof.
  split; intros Ht.
  - unfold set. rewrite handleTTL_positive' by done.
    eexists _, (Timeout_after (default (_TTL s) ttl_arg * 1000)).
    split; [reflexivity|]. simpl. rewrite lookup_insert_eq.
    split; [done|]. split; [done|].
    split; [intros Hle; apply Timeout_after_in_range; lia|].
    split; [apply Timeout_after_in_range|].
    assert (data (fire (length (timers s))
              (with_data (fun d => <[k := mkEntry (default (_TTL s) ttl_arg) v
                                            (Some (length (timers s)))]> d)
                 (mkState (_TTL s) (data s) (heap s)
                    (timers s ++ [mkTimer k (Timeout_after (default (_TTL s) ttl_arg * 1000))
                                    Pending]))))
            !! k = None) as Hgone.
    { eapply fire_deletes. simpl. rewrite lookup_app_r by done.
      by rewrite Nat.sub_diag. }
    unfold get, exists_. rewrite Hgone. simpl. done.
  - unfold set, handleTTL. destruct (Z.leb_spec (default (_TTL s) ttl_arg) 0); [|lia].
    eexists. split; [reflexivity|]. simpl. by rewrite lookup_insert_eq.
Qed.

Example set_with_a_ttl_of_thirty_days :
  timers (state_of (set "a" (VNumber 1) (Some 2592000) fresh_store))
  = [mkTimer "a" 1 Pending]
  /\ timers (state_of (set "a" (VNumber 1) (Some 2147483) fresh_store))
  = [mkTimer "a" 2147483000 Pending].
Proof. by_evaluation. Qed.

(** [del] does not cancel the timer of the key it removes: a key that is
    set with a positive ttl, deleted, and set again never to expire, is
    deleted when the timer of the first [set] fires. *)
Theorem del_keeps_the_timer (k : string) (v v2 : CacheData) (t : Z) (s : State) :
  t > 0 ->
  exists s', (set k v (Some t) ;;; del [k] ;;; set k v2 (Some 0)) s = Returns tt s' /\
    get k s' = Returns (Some v2) s' /\
    getTTL k s' = Returns 0 s' /\
    timers s' !! length (timers s) = Some (mkTimer k (Timeout_after (t * 1000)) Pending) /\
    get k (fire (length (timers s)) s') = Returns None (fire (length (timers s)) s').
Proof.
  intros Ht. unfold bind, set at 1. simpl default. rewrite handleTTL_positive' by done.
  unfold del, set, handleTTL. simpl.
  eexists. split; [reflexivity|].
  unfold get, getTTL. simpl. rewrite lookup_insert_eq. simpl.
  split; [done|]. split; [done|].
  assert ((timers s ++ [mkTimer k (Timeout_after (t * 1000)) Pending]) !! length (timers s)
          = Some (mkTimer k (Timeout_after (t * 1000)) Pending)) as Hid.
  { rewrite lookup_app_r by done. by rewrite Nat.sub_diag. }
  split; [done|].
  unfold fire. simpl. rewrite Hid. simpl. by rewrite lookup_delete_eq.
Qed.

Lemma del_keeps_the_timer_witness :
  exists s', (set "a" (VNumber 1) (Some 5) ;;; del ["a"] ;;; set "a" (VNumber 2) (Some 0)) fresh_store
             = Returns tt s' /\
    get "a" s' = Returns (Some (VNumber 2)) s' /\
    getTTL "a" s' = Returns 0 s' /\
    timers s' !! length (timers fresh_store) = Some (mkTimer "a" (Timeout_after (5 * 1000)) Pending) /\
    get "a" (fire (length (timers fresh_store)) s')
      = Returns None (fire (length (timers fresh_store)) s').
Proof. apply (del_keeps_the_timer "a" (VNumber 1) (VNumber 2) 5 fresh_store). lia. Defined.

Lemma fire_not_pending (id : nat) (s : State) :
  status <$> timers s !! id <> Some Pending -> fire id s = s.
Proof.
  unfold fire. destruct (timers s !! id) as [[k d []]|]; simpl; congruence.
Qed.

(** After [persist] the timer behind the handle of the entry cannot delete
    the key any more: firing it changes nothing, and the value is still
    there. *)
Theorem persist_stops_the_timer (k : string) (d : Entry) (id : nat) (s : State) :
  data s !! k = Some d -> timeout d = Some id ->
  exists s', persist k s = Returns tt s' /\
    fire id s' = s' /\
    get k (fire id s') = Returns (Some (value d)) s' /\
    getTTL k (fire id s') = Returns 0 s'.
Proof.
  intros Hd Ht. destruct (persist_present k d s Hd) as (s' & He & Hd' & Hg & Hnp).
  exists s'. split; [done|].
  rewrite fire_not_pending by auto. split; [done|]. split; [|done].
  unfold get. by rewrite Hd'.
Qed.

Lemma persist_stops_the_timer_witness :
  exists s', persist "a" expiring_store = Returns tt s' /\
    fire 0 s' = s' /\
    get "a" (fire 0 s') = Returns (Some (value (mkEntry 60 (VNumber 1) (Some 0%nat)))) s' /\
    getTTL "a" (fire 0 s') = Returns 0 s'.
Proof.
  apply (persist_stops_the_timer "a" (mkEntry 60 (VNumber 1) (Some 0%nat)) 0 expiring_store);
    reflexivity.
Defined.

(** The witness of [persist_idempotent]: the key a of a store where it is
    set to expire. *)
Lemma persist_idempotent_witness :
  exists s', persist "a" expiring_store = Returns tt s' /\ persist "a" s' = Returns tt s'.
Proof.
  apply (persist_idempotent "a" (mkEntry 60 (VNumber 1) (Some 0%nat)) expiring_store).
  reflexivity.
Defined.

Lemma filter_nil (f : Timer -> bool) (l : list Timer) :
  (forall i x, l !! i = Some x -> f x = false) -> List.filter f l = [].
Proof.
  induction l as [|x l IH]; intros H; simpl; [done|].
  rewrite (H 0%nat x) by done. apply IH. intros i y Hy. by apply (H (S i)).
Qed.

(** Once the handle of the entry is cancelled, no timer of a key that
    owns its timers is pending. *)
Lemma cleared_not_live (k : string) (d : Entry) (s : State) :
  data s !! k = Some d -> owns_its_timers k s ->
  forall i x, timers (clearTimeout (timeout d) s) !! i = Some x -> is_live_for k x = false.
Proof.
  intros Hd Hown i x Hi. destruct (is_live_for k x) eqn:Hlive; [exfalso|done].
  assert (forall j y, timers s !! j = Some y -> is_live_for k y = true -> timeout d = Some j)
    as Hown'.
  { intros j y Hj Hy. specialize (Hown j y Hj Hy). rewrite Hd in Hown. by injection Hown. }
  unfold clearTimeout in Hi. destruct (timeout d) as [id|] eqn:Ht.
  - destruct (timers s !! id) as [[k0 d0 st]|] eqn:Hid.
    + destruct st; simpl in Hi.
      * destruct (decide (i = id)) as [->|Hne].
        -- rewrite list_lookup_insert_eq in Hi by (by eapply lookup_lt_Some).
           injection Hi as <-. done.
        -- rewrite list_lookup_insert_ne in Hi by done.
           specialize (Hown' i x Hi Hlive). congruence.
      * specialize (Hown' i x Hi Hlive). injection Hown' as <-.
        rewrite Hid in Hi. injection Hi as <-. done.
      * specialize (Hown' i x Hi Hlive). injection Hown' as <-.
        rewrite Hid in Hi. injection Hi as <-. done.
    + specialize (Hown' i x Hi Hlive). injection Hown' as <-. congruence.
  - specialize (Hown' i x Hi Hlive). done.
Qed.

Lemma clearTimeout_frame (h : option nat) (s : State) :
  _TTL (clearTimeout h s) = _TTL s /\ data (clearTimeout h s) = data s /\
  heap (clearTimeout h s) = heap s.
Proof.
  unfold clearTimeout. destruct h as [id|]; [|done].
  destruct (timers s !! id) as [[k d []]|]; done.
Qed.

(** [setTTL] on a present key keeps the value and records the new ttl.
    When every pending timer of the key is the one of its entry, that is
    so afterwards too, and the key has exactly one pending timer for a
    positive ttl, and none otherwise.  The delay of that timer is
    ttl * 1000 milliseconds when that is at most [TIMEOUT_MAX], and 1
    millisecond when it is more. *)
Theorem setTTL_rearms (k : string) (d : Entry) (t : Z) (s : State) :
  data s !! k = Some d ->
  exists s', setTTL k t s = Returns tt s' /\
    get k s' = Returns (Some (value d)) s' /\
    getTTL k s' = Returns t s' /\
    (owns_its_timers k s ->
     owns_its_timers k s' /\
     (t > 0 ->
      exists delay,
        live_timers_of k s' = [mkTimer k delay Pending] /\
        (t * 1000 <= TIMEOUT_MAX -> delay = t * 1000) /\
        (t * 1000 > TIMEOUT_MAX -> delay = 1)) /\
     (t <= 0 -> live_timers_of k s' = [])).
Proof.
  intros Hd.
  assert (owns_its_timers k s ->
          forall i x, timers (clearTimeout (timeout d) s) !! i = Some x ->
                      is_live_for k x = false) as Hnone
    by (intros Hown; by apply cleared_not_live).
  unfold setTTL. rewrite Hd.
  remember (clearTimeout (timeout d) s) as s1 eqn:Hs1. clear Hs1.
  destruct (Z.gtb_spec t 0) as [Hpos|Hnpos].
  - rewrite handleTTL_positive by lia.
    eexists. split; [reflexivity|]. unfold get, getTTL. simpl. rewrite lookup_insert_eq. simpl.
    split; [done|]. split; [done|]. intros Hown. specialize (Hnone Hown). split.
    + intros id x Hid Hlive. simpl in *. rewrite lookup_insert_eq. simpl.
      apply lookup_app_Some in Hid as [Hid|[Hge Hid]].
      * rewrite (Hnone id x Hid) in Hlive. done.
      * apply list_lookup_singleton_Some in Hid as [Hz _].
        do 2 f_equal. lia.
    + split; [|lia]. intros _.
      exists (Timeout_after (t * 1000)). split; [|split].
      * unfold live_timers_of. simpl.
        rewrite List.filter_app, (filter_nil _ _ Hnone). simpl.
        unfold is_live_for. simpl. by rewrite bool_decide_eq_true_2.
      * intros Hle. apply Timeout_after_in_range. lia.
      * apply Timeout_after_in_range.
  - rewrite handleTTL_not_positive by lia.
    eexists. split; [reflexivity|]. unfold get, getTTL. simpl. rewrite lookup_insert_eq. simpl.
    split; [done|]. split; [done|]. intros Hown. specialize (Hnone Hown). split.
    + intros id x Hid Hlive. simpl in *. rewrite (Hnone id x Hid) in Hlive. done.
    + split; [lia|]. intros _.
      unfold live_timers_of. simpl. by apply filter_nil.
Qed.

(** On the store where the key a is set to expire, which owns its timer:
    [setTTL] of a to 5 seconds. *)
Lemma setTTL_rearms_witness :
  exists s', setTTL "a" 5 expiring_store = Returns tt s' /\
    get "a" s' = Returns (Some (VNumber 1)) s' /\
    getTTL "a" s' = Returns 5 s' /\
    owns_its_timers "a" s' /\
    live_timers_of "a" s' = [mkTimer "a" 5000 Pending].
Proof.
  destruct (setTTL_rearms "a" (mkEntry 60 (VNumber 1) (Some 0%nat)) 5 expiring_store eq_refl)
    as (s' & He & Hg & Ht & Hown).
  exists s'. split; [exact He|]. split; [exact Hg|]. split; [exact Ht|].
  destruct Hown as (Hown' & Hpos & _).
  - intros id t Hid _. destruct id as [|id]; [reflexivity|].
    vm_compute in Hid. destruct id; discriminate.
  - split; [exact Hown'|]. destruct Hpos as (delay & Hlive & Hin & _); [lia|].
    rewrite Hlive, Hin; [reflexivity|]. unfold TIMEOUT_MAX. lia.
Defined.

(** [setTTL] also where the key does not own its timers, after two [set]:
    the value and the new ttl are there; the timer of the first [set] is
    still pending beside the new one. *)
Example setTTL_after_two_set :
  result_of ((set "a" (VNumber 1) (Some 1) ;;; set "a" (VNumber 2) (Some 2) ;;;
              setTTL "a" 3 ;;; get "a") fresh_store) = Some (Some (VNumber 2))
  /\ result_of ((set "a" (VNumber 1) (Some 1) ;;; set "a" (VNumber 2) (Some 2) ;;;
                 setTTL "a" 3 ;;; getTTL "a") fresh_store) = Some 3
  /\ live_timers_of "a"
       (state_of ((set "a" (VNumber 1) (Some 1) ;;; set "a" (VNumber 2) (Some 2) ;;;
                   setTTL "a" 3) fresh_store))
     = [mkTimer "a" 1000 Pending; mkTimer "a" 3000 Pending].
Proof. by_evaluation. Qed.



Example incrementBy_on_a_counter :
  result_of ((set "n" (VNumber 40) (Some 9) ;;; incrementBy "n" 2 ;;; get "n") fresh_store)
    = Some (Some (VNumber 42))
  /\ result_of ((set "n" (VNumber 40) (Some 9) ;;; incrementBy "n" 2 ;;; getTTL "n") fresh_store)
    = Some 9
  /\ result_of ((set "n" (VNumber (2 ^ 53)) None ;;; incrementBy "n" 1 ;;; get "n") fresh_store)
    = Some (Some (VNumber (2 ^ 53)))
  /\ incrementBy "s" 1 (state_of (set "s" (VString "1") None fresh_store))
    = Throws (MkError CacheErrors.InvalidKey) (state_of (set "s" (VString "1") None fresh_store)).
Proof. by_evaluation. Qed.

(** ** The hashmap operations *)

Lemma hGet_holds (k f : string) (s : State) :
  hGet k f s = Returns (holds_hashmap k s ≫= (.!! f)) s.
Proof.
  unfold hGet, holds_hashmap, instanceof_Map, Map_get.
  destruct (data s !! k) as [[t [] h]|]; simpl; try done.
  destruct (heap s !! l) as [[]|]; done.
Qed.

Lemma hExists_holds (k f : string) (s : State) :
  hExists k f s = Returns (bool_decide (is_Some (holds_hashmap k s ≫= (.!! f)))) s.
Proof.
  unfold hExists, holds_hashmap, instanceof_Map, Map_has.
  destruct (data s !! k) as [[t [] h]|]; simpl; try done.
  destruct (heap s !! l) as [[]|]; done.
Qed.

(** After [hSet], [hGet] of a field returns the value given for it, and
    for a field that was not given what the Hashmap held before: nothing
    when the key held no Hashmap. *)
Theorem hSet_then_hGet (k f : string) (fields : gmap string CacheData)
    (ttl_arg : option Z) (s : State) :
  exists s', hSet k fields ttl_arg s = Returns tt s' /\
    hGet k f s' =
      Returns (match fields !! f with
               | Some v => Some v
               | None => holds_hashmap k s ≫= (.!! f)
               end) s'.
Proof.
  destruct (holds_hashmap k s) as [old|] eqn:Hh.
  - destruct (hSet_on_hashmap k fields old ttl_arg s Hh) as (l & Hl & He & Hs').
    eexists. split; [exact He|]. rewrite hGet_holds, Hs'. simpl. f_equal.
    destruct (fields !! f) as [v|] eqn:Hf.
    + by apply lookup_union_Some_l.
    + by rewrite lookup_union_r.
  - destruct (hSet_creates k fields ttl_arg s Hh) as [He Hs'].
    eexists. split; [exact He|]. rewrite hGet_holds, Hs'. simpl.
    by destruct (fields !! f).
Qed.

(** [hDel] never throws.  It removes the one field from a Hashmap and
    keeps the others; the key stays, with its entry and the timers as they
    were, also when the last field goes.  Under an absent key, under a
    value that is no Hashmap and for a field that is not there, the state
    is unchanged. *)
Theorem hDel_removes_one_field (k f : string) (s : State) :
  exists s', hDel k f s = Returns tt s' /\
    holds_hashmap k s' = delete f <$> holds_hashmap k s /\
    (forall f', hGet k f' s' =
       Returns (if decide (f' = f) then None else holds_hashmap k s ≫= (.!! f')) s') /\
    data s' = data s /\ timers s' = timers s /\
    (holds_hashmap k s ≫= (.!! f) = None -> s' = s).
Proof.
  destruct (holds_hashmap k s) as [old|] eqn:Hh.
  - pose proof Hh as Hh'.
    apply holds_hashmap_Some in Hh as (d & l & Hd & Hv & Hl & Hi).
    unfold hDel. rewrite Hd, Hi. unfold Map_delete. rewrite Hv, Hl.
    eexists. split; [reflexivity|].
    assert (holds_hashmap k (store_obj l (OMap (delete f old)) s) = Some (delete f old)) as Hs'.
    { unfold holds_hashmap. simpl. rewrite Hd. destruct d as [t v h]; simpl in *. subst v.
      by rewrite list_lookup_insert_eq by (by eapply lookup_lt_Some). }
    split; [done|]. split; [|split; [done|split; [done|]]].
    + intros f'. rewrite hGet_holds, Hs'. simpl. f_equal.
      destruct (decide (f' = f)) as [->|Hne].
      * apply lookup_delete_eq.
      * by apply lookup_delete_ne.
    + simpl. intros Hf. rewrite delete_id by done. by apply store_obj_id.
  - apply holds_hashmap_None in Hh as Hn.
    assert (hDel k f s = Returns tt s) as ->.
    { unfold hDel. destruct (data s !! k) as [d|]; [rewrite Hn|]; done. }
    exists s. split; [done|]. rewrite Hh. split; [done|]. split; [|done].
    intros f'. rewrite hGet_holds, Hh. simpl. by destruct (decide (f' = f)).
Qed.

Lemma hKeys_holds (k : string) (s : State) :
  hKeys k s = Returns (map_to_list (default ∅ (holds_hashmap k s))).*1 s.
Proof.
  unfold hKeys, holds_hashmap, instanceof_Map, Map_keys, Map_entries.
  destruct (data s !! k) as [[t [] h]|]; simpl; try (by rewrite map_to_list_empty).
  destruct (heap s !! l) as [[]|]; simpl; try done; by rewrite map_to_list_empty.
Qed.

Lemma hValues_holds (k : string) (s : State) :
  hValues k s = Returns (map_to_list (default ∅ (holds_hashmap k s))).*2 s.
Proof.
  unfold hValues, holds_hashmap, instanceof_Map, Map_values, Map_entries.
  destruct (data s !! k) as [[t [] h]|]; simpl; try (by rewrite map_to_list_empty).
  destruct (heap s !! l) as [[]|]; simpl; try done; by rewrite map_to_list_empty.
Qed.

Lemma hLen_holds (k : string) (s : State) :
  hLen k s = Returns (Z.of_nat (size (default ∅ (holds_hashmap k s)))) s.
Proof.
  unfold hLen, holds_hashmap, instanceof_Map, Map_size.
  destruct (data s !! k) as [[t [] h]|]; simpl; try done.
  destruct (heap s !! l) as [[]|]; done.
Qed.

(** [hKeys], [hValues] and [hLen] never throw and agree with each other
    and with [hExists] and [hGet]: as many keys and as many values as
    [hLen] says, no key twice, the keys are the fields that [hExists]
    finds, and the value at a position is what [hGet] returns for the key
    at that position.  Under an absent key and under a value that is no
    Hashmap they return nothing and 0. *)
Theorem hKeys_hValues_hLen_agree (k : string) (s : State) :
  exists ks vs n,
    hKeys k s = Returns ks s /\ hValues k s = Returns vs s /\ hLen k s = Returns n s /\
    n = Z.of_nat (length ks) /\ length vs = length ks /\ NoDup ks /\
    (forall f, f ∈ ks <-> hExists k f s = Returns true s) /\
    (forall i f v, ks !! i = Some f -> vs !! i = Some v -> hGet k f s = Returns (Some v) s) /\
    (holds_hashmap k s = None -> ks = [] /\ vs = [] /\ n = 0).
Proof.
  eexists _, _, _. split; [apply hKeys_holds|]. split; [apply hValues_holds|].
  split; [apply hLen_holds|].
  set (es := default ∅ (holds_hashmap k s)).
  assert (forall f, holds_hashmap k s ≫= (.!! f) = es !! f) as Hes.
  { intros f. unfold es. destruct (holds_hashmap k s); [done|]. simpl.
    by rewrite lookup_empty. }
  split; [by rewrite length_fmap, length_map_to_list|].
  split; [by rewrite !length_fmap|].
  split; [apply NoDup_fst_map_to_list|].
  split; [|split].
  - intros f. rewrite hExists_holds, Hes. rewrite list_elem_of_fmap. split.
    + intros ([f' v] & -> & Hin). apply elem_of_map_to_list in Hin. simpl.
      rewrite bool_decide_eq_true_2; [done|by exists v].
    + intros [= Hb]. apply bool_decide_eq_true in Hb as [v Hv].
      exists (f, v). split; [done|]. by apply elem_of_map_to_list.
  - intros i f v Hf Hv. rewrite hGet_holds, Hes. f_equal.
    rewrite list_lookup_fmap in Hf. rewrite list_lookup_fmap in Hv.
    destruct (map_to_list es !! i) as [[f' v']|] eqn:Hi; simpl in *; [|done].
    injection Hf as <-. injection Hv as <-.
    apply elem_of_map_to_list. by eapply list_elem_of_lookup_2.
  - intros Hn. unfold es. rewrite Hn. simpl. by rewrite map_to_list_empty.
Qed.

Example hashmap_scenario :
  result_of ((hSet "h" {[ "x" := VNumber 1; "y" := VNumber 2 ]} None ;;;
              hDel "h" "x" ;;; hDel "h" "y" ;;; hLen "h") fresh_store) = Some 0
  /\ result_of ((hSet "h" {[ "x" := VNumber 1 ]} None ;;; hDel "h" "x" ;;; exists_ "h")
                  fresh_store) = Some true
  /\ result_of ((hSet "h" {[ "x" := VNumber 1; "y" := VNumber 2 ]} None ;;; hDel "h" "x" ;;;
                 hKeys "h") fresh_store) = Some ["y"]
  /\ result_of ((lPush "l" [VNumber 1] ;;; hLen "l") fresh_store) = Some 0.
Proof. by_evaluation. Qed.

(** ** [mGet] *)

(** [mGet] after [mSet] returns, position by position, the value that
    [mSet] gave to the key, and for a key that [mSet] did not name the
    value it had before, or nothing. *)
Theorem mSet_then_mGet (object : gmap string CacheData) (keys : list string) (s : State) :
  exists s', mSet object s = Returns tt s' /\
    mGet keys s' =
      Returns (map (fun k => match object !! k with
                             | Some v => Some v
                             | None => value <$> data s !! k
                             end) keys) s'.
Proof.
  exists (state_of (mSet object s)). split; [done|].
  unfold mGet. f_equal. apply map_ext. intros k.
  rewrite mSet_data. by destruct (object !! k).
Qed.

(** ** More on the list operations *)

Lemma StrictEquals_eq (x y : CacheData) : StrictEquals x y = true <-> x = y.
Proof.
  destruct x, y; simpl; try (split; intros; congruence || done);
    rewrite bool_decide_eq_true; split; congruence.
Qed.

(** The list operations that read or change a position check the key
    first, then the type of the value, and only then the index: under an
    absent key they throw [InvalidKey], under a value that is no List
    [InvalidKeyType], and the state is what it was. *)
Theorem list_operations_check_key_and_type (k : string) (i j : Z) (v : CacheData) (s : State) :
  (data s !! k = None ->
   lRange k i j s = Throws (MkError CacheErrors.InvalidKey) s /\
   lPos k v s = Throws (MkError CacheErrors.InvalidKey) s /\
   lIndex k i s = Throws (MkError CacheErrors.InvalidKey) s /\
   lLen k s = Throws (MkError CacheErrors.InvalidKey) s /\
   lSet k i v s = Throws (MkError CacheErrors.InvalidKey) s /\
   lRem k v s = Throws (MkError CacheErrors.InvalidKey) s /\
   lRemIndex k i s = Throws (MkError CacheErrors.InvalidKey) s)
  /\ (is_Some (data s !! k) -> holds_list k s = None ->
      lRange k i j s = Throws (MkError CacheErrors.InvalidKeyType) s /\
      lPos k v s = Throws (MkError CacheErrors.InvalidKeyType) s /\
      lIndex k i s = Throws (MkError CacheErrors.InvalidKeyType) s /\
      lLen k s = Throws (MkError CacheErrors.InvalidKeyType) s /\
      lSet k i v s = Throws (MkError CacheErrors.InvalidKeyType) s /\
      lRem k v s = Throws (MkError CacheErrors.InvalidKeyType) s /\
      lRemIndex k i s = Throws (MkError CacheErrors.InvalidKeyType) s).
Proof.
  split.
  - intros Hd. unfold lRange, lPos, lIndex, lLen, lSet, lRem, lRemIndex. by rewrite Hd.
  - intros [d Hd] Hh. apply holds_list_None in Hh. rewrite Hd in Hh.
    unfold lRange, lPos, lIndex, lLen, lSet, lRem, lRemIndex. by rewrite Hd, Hh.
Qed.

(** [lRange] throws on no bounds: it returns a run of consecutive elements
    of the List and leaves the state as it is.  Within the List it returns
    the elements from [start] up to, not including, [end]; from 0 to the
    length or beyond, the whole List; from a negative start, the last
    elements; and nothing when the end is not after the start. *)
Theorem lRange_returns_a_run (k : string) (start end_ : Z) (es : list CacheData) (s : State) :
  holds_list k s = Some es ->
  exists r pre post,
    lRange k start end_ s = Returns r s /\
    es = pre ++ r ++ post /\
    (0 <= start -> start <= end_ -> end_ <= Z.of_nat (length es) ->
     r = take (Z.to_nat (end_ - start)) (drop (Z.to_nat start) es)) /\
    (start = 0 -> Z.of_nat (length es) <= end_ -> r = es) /\
    (- Z.of_nat (length es) <= start -> start < 0 -> Z.of_nat (length es) <= end_ ->
     r = drop (Z.to_nat (Z.of_nat (length es) + start)) es) /\
    (0 <= end_ -> end_ <= start -> r = []).
Proof.
  intros Hh. apply holds_list_Some in Hh as (d & l & ps & Hd & Hv & Hl & Hi & Hlen).
  set (n := Z.of_nat (length es)) in *.
  set (a := if start <? 0 then Z.max (n + start) 0 else Z.min start n).
  set (b := if end_ <? 0 then Z.max (n + end_) 0 else Z.min end_ n).
  assert (slice es start end_ = take (Z.to_nat (Z.max (b - a) 0)) (drop (Z.to_nat a) es)) as Hs
    by done.
  assert (0 <= n) as Hn by (unfold n; lia).
  exists (slice es start end_), (take (Z.to_nat a) es),
         (drop (Z.to_nat (Z.max (b - a) 0)) (drop (Z.to_nat a) es)).
  split; [|split; [|split; [|split; [|split]]]].
  - unfold lRange. rewrite Hd, Hi. unfold Array_slice. by rewrite Hv, Hl.
  - rewrite Hs. by rewrite take_drop, take_drop.
  - intros H0 H1 H2. rewrite Hs. clear Hs. subst a b.
    destruct (Z.ltb_spec start 0); [lia|]. destruct (Z.ltb_spec end_ 0); [lia|].
    do 2 f_equal; lia.
  - intros -> H1. rewrite Hs. clear Hs. subst a b. change (0 <? 0) with false. cbv iota.
    destruct (Z.ltb_spec end_ 0); [lia|].
    replace (Z.min 0 n) with 0 by lia. replace (Z.min end_ n) with n by lia.
    rewrite drop_0. apply take_ge. unfold n. lia.
  - intros H0 H1 H2. rewrite Hs. clear Hs. subst a b.
    destruct (Z.ltb_spec start 0); [|lia]. destruct (Z.ltb_spec end_ 0); [lia|].
    replace (Z.max (n + start) 0) with (n + start) by lia.
    apply take_ge. rewrite length_drop. unfold n in *. lia.
  - intros H0 H1. rewrite Hs. clear Hs. subst a b.
    destruct (Z.ltb_spec start 0); [lia|]. destruct (Z.ltb_spec end_ 0); [lia|].
    replace (Z.to_nat (Z.max (Z.min end_ n - Z.min start n) 0)) with 0%nat by lia.
    done.
Qed.

Lemma lRange_returns_a_run_witness :
  exists r pre post,
    lRange "l" 1 3 three_elements = Returns r three_elements /\
    [VNumber 1; VNumber 2; VNumber 3] = pre ++ r ++ post /\
    (0 <= 1 -> 1 <= 3 -> 3 <= Z.of_nat (length [VNumber 1; VNumber 2; VNumber 3]) ->
     r = take (Z.to_nat (3 - 1)) (drop (Z.to_nat 1) [VNumber 1; VNumber 2; VNumber 3])) /\
    (1 = 0 -> Z.of_nat (length [VNumber 1; VNumber 2; VNumber 3]) <= 3 ->
     r = [VNumber 1; VNumber 2; VNumber 3]) /\
    (- Z.of_nat (length [VNumber 1; VNumber 2; VNumber 3]) <= 1 -> 1 < 0 ->
     Z.of_nat (length [VNumber 1; VNumber 2; VNumber 3]) <= 3 ->
     r = drop (Z.to_nat (Z.of_nat (length [VNumber 1; VNumber 2; VNumber 3]) + 1))
           [VNumber 1; VNumber 2; VNumber 3]) /\
    (0 <= 3 -> 3 <= 1 -> r = []).
Proof.
  apply (lRange_returns_a_run "l" 1 3 [VNumber 1; VNumber 2; VNumber 3] three_elements).
  reflexivity.
Defined.

Example lRange_clamps :
  result_of (lRange "l" 1 3 three_elements) = Some [VNumber 2; VNumber 3]
  /\ result_of (lRange "l" (-2) 100 three_elements) = Some [VNumber 2; VNumber 3]
  /\ result_of (lRange "l" (-100) (-1) three_elements) = Some [VNumber 1; VNumber 2]
  /\ result_of (lRange "l" 2 1 three_elements) = Some []
  /\ result_of (lRange "l" 0 3 three_elements) = Some [VNumber 1; VNumber 2; VNumber 3].
Proof. by_evaluation. Qed.

Lemma indexOf_from_spec (es : list CacheData) (x : CacheData) (i0 : Z) :
  0 <= i0 ->
  (indexOf_from es x i0 = -1 /\ x ∉ es) \/
  (exists j : nat, indexOf_from es x i0 = i0 + Z.of_nat j /\ es !! j = Some x /\
     forall j', (j' < j)%nat -> es !! j' <> Some x).
Proof.
  revert i0. induction es as [|e es IH]; intros i0 Hi0; cbn [indexOf_from].
  - left. split; [done|]. apply not_elem_of_nil.
  - destruct (StrictEquals e x) eqn:He.
    + apply StrictEquals_eq in He as ->. right. exists 0%nat.
      split; [lia|]. split; [done|]. intros j' Hj'. lia.
    + assert (e <> x) as Hne.
      { intros Heq. apply StrictEquals_eq in Heq. congruence. }
      destruct (IH (i0 + 1)) as [[Hr Hnin]|(j & Hr & Hj & Hfirst)]; [lia| |].
      * left. split; [done|]. intros [?|?]%elem_of_cons; congruence.
      * right. exists (S j). split; [lia|]. split; [done|].
        intros [|j'] Hj'; simpl; [congruence|]. apply Hfirst. lia.
Qed.

(** [lPos] returns -1 exactly when no element of the List is the member;
    otherwise it returns the position of the first element that is
    strictly equal to it (a primitive of the same value, or the same
    reference). *)
Theorem lPos_finds_the_first (k : string) (member : CacheData) (es : list CacheData)
    (s : State) :
  holds_list k s = Some es ->
  exists i, lPos k member s = Returns i s /\
    ((i = -1 /\ member ∉ es) \/
     (0 <= i < Z.of_nat (length es) /\ es !! Z.to_nat i = Some member /\
      forall j, (j < Z.to_nat i)%nat -> es !! j <> Some member)).
Proof.
  intros Hh. apply holds_list_Some in Hh as (d & l & ps & Hd & Hv & Hl & Hi & Hlen).
  exists (indexOf_from es member 0). split.
  - unfold lPos. rewrite Hd, Hi. unfold Array_indexOf. by rewrite Hv, Hl.
  - destruct (indexOf_from_spec es member 0) as [?|(j & Hr & Hj & Hfirst)]; [lia|by left|].
    right. rewrite Hr. replace (Z.to_nat (0 + Z.of_nat j)) with j by lia.
    split; [|done]. apply lookup_lt_Some in Hj. lia.
Qed.

Lemma lPos_finds_the_first_witness :
  exists i, lPos "l" (VNumber 2) three_elements = Returns i three_elements /\
    ((i = -1 /\ VNumber 2 ∉ [VNumber 1; VNumber 2; VNumber 3]) \/
     (0 <= i < Z.of_nat (length [VNumber 1; VNumber 2; VNumber 3]) /\
      [VNumber 1; VNumber 2; VNumber 3] !! Z.to_nat i = Some (VNumber 2) /\
      forall j, (j < Z.to_nat i)%nat -> [VNumber 1; VNumber 2; VNumber 3] !! j <> Some (VNumber 2))).
Proof.
  apply (lPos_finds_the_first "l" (VNumber 2) [VNumber 1; VNumber 2; VNumber 3] three_elements).
  reflexivity.
Defined.

(** [lIndex] does not check the index: from 0 on it returns the element
    at the position, and nothing at the length and beyond. *)
Theorem lIndex_reads_or_returns_null (k : string) (index : Z) (es : list CacheData)
    (s : State) :
  holds_list k s = Some es -> 0 <= index ->
  lIndex k index s = Returns (es !! Z.to_nat index) s /\
  (Z.of_nat (length es) <= index -> lIndex k index s = Returns None s).
Proof.
  intros Hh H0. apply holds_list_Some in Hh as (d & l & ps & Hd & Hv & Hl & Hi & Hlen).
  assert (lIndex k index s = Returns (es !! Z.to_nat index) s) as He.
  { unfold lIndex. rewrite Hd, Hi. unfold Array_get. rewrite Hv, Hl. simpl.
    destruct (Z.ltb_spec index 0); [lia|done]. }
  split; [done|]. intros Hge. rewrite He. f_equal. apply lookup_ge_None. lia.
Qed.

Lemma lIndex_reads_or_returns_null_witness :
  lIndex "l" 3 three_elements
    = Returns ([VNumber 1; VNumber 2; VNumber 3] !! Z.to_nat 3) three_elements /\
  (Z.of_nat (length [VNumber 1; VNumber 2; VNumber 3]) <= 3 ->
   lIndex "l" 3 three_elements = Returns None three_elements).
Proof.
  apply (lIndex_reads_or_returns_null "l" 3 [VNumber 1; VNumber 2; VNumber 3] three_elements).
  - reflexivity.
  - lia.
Defined.

(** For every index that [lSet] accepts, negative ones too, [lIndex] of
    that index returns the value written, and the length of the List is
    what it was. *)
Theorem lSet_then_lIndex (k : string) (index : Z) (v : CacheData) (es : list CacheData)
    (s : State) :
  holds_list k s = Some es -> index <= Z.of_nat (length es) - 1 ->
  exists s', lSet k index v s = Returns tt s' /\
    lIndex k index s' = Returns (Some v) s' /\
    lLen k s' = Returns (Z.of_nat (length es)) s'.
Proof.
  intros Hh Hle. apply holds_list_Some in Hh as (d & l & ps & Hd & Hv & Hl & Hi & Hlen).
  unfold lSet. rewrite Hd, Hi, Hlen. simpl.
  destruct (Z.gtb_spec index (Z.of_nat (length es) - 1)); [lia|].
  unfold Array_put. rewrite Hv, Hl.
  eexists. split; [reflexivity|].
  rewrite with_data_insert_same by (by destruct (index <? 0)).
  assert (l < length (heap s))%nat as Hlt by (by eapply lookup_lt_Some).
  unfold lIndex, lLen, Array_isArray, Array_get, Array_length.
  destruct (Z.ltb_spec index 0) as [Hneg|Hpos]; simpl; rewrite Hd, Hv;
    rewrite list_lookup_insert_eq by done; simpl.
  - destruct (Z.ltb_spec index 0); [|lia]. by rewrite lookup_insert_eq.
  - destruct (Z.ltb_spec index 0); [lia|]. rewrite length_insert.
    by rewrite list_lookup_insert_eq by lia.
Qed.

Lemma lSet_then_lIndex_witness :
  exists s', lSet "l" (-1) (VNumber 9) three_elements = Returns tt s' /\
    lIndex "l" (-1) s' = Returns (Some (VNumber 9)) s' /\
    lLen "l" s' = Returns (Z.of_nat (length [VNumber 1; VNumber 2; VNumber 3])) s'.
Proof.
  apply (lSet_then_lIndex "l" (-1) (VNumber 9) [VNumber 1; VNumber 2; VNumber 3] three_elements).
  - reflexivity.
  - simpl. lia.
Defined.

(** [lRemIndex] at a position of the List removes the element there and
    nothing else, so the List is one shorter; above the last position it
    throws [OutOfIndex] and changes nothing. *)
Theorem lRemIndex_in_range (k : string) (i : Z) (es : list CacheData) (s : State) :
  holds_list k s = Some es ->
  (0 <= i <= Z.of_nat (length es) - 1 ->
   exists s', lRemIndex k i s = Returns tt s' /\
     holds_list k s' = Some (delete (Z.to_nat i) es) /\
     lLen k s' = Returns (Z.of_nat (length es) - 1) s')
  /\ (i > Z.of_nat (length es) - 1 ->
      lRemIndex k i s = Throws (MkError CacheErrors.OutOfIndex) s).
Proof.
  intros Hh. pose proof Hh as Hh'.
  apply holds_list_Some in Hh as (d & l & ps & Hd & Hv & Hl & Hi & Hlen).
  split; intros Hr.
  - exists (with_data (fun m => <[k := d]> m) (Array_splice (value d) i 1 s)).
    split.
    { unfold lRemIndex. rewrite Hd, Hi, Hlen. simpl.
      destruct (Z.gtb_spec i (Z.of_nat (length es) - 1)); [lia|done]. }
    unfold Array_splice. rewrite Hv, Hl.
    rewrite with_data_insert_same by done.
    rewrite splice_one by lia. destruct (Z.ltb_spec i 0); [lia|].
    assert (holds_list k (store_obj l (OArray (delete (Z.to_nat i) es) ps) s)
            = Some (delete (Z.to_nat i) es)) as Hs' by (by eapply holds_list_store).
    split; [done|].
    apply holds_list_Some in Hs' as (d' & l' & ps' & Hd' & Hv' & Hl' & Hi' & Hlen').
    unfold lLen. rewrite Hd', Hi', Hlen'. simpl. f_equal.
    rewrite length_delete by (apply lookup_lt_is_Some; lia). lia.
  - unfold lRemIndex. rewrite Hd, Hi, Hlen. simpl.
    destruct (Z.gtb_spec i (Z.of_nat (length es) - 1)); [done|lia].
Qed.

Lemma lRemIndex_in_range_witness :
  (0 <= 1 <= Z.of_nat (length [VNumber 1; VNumber 2; VNumber 3]) - 1 ->
   exists s', lRemIndex "l" 1 three_elements = Returns tt s' /\
     holds_list "l" s' = Some (delete (Z.to_nat 1) [VNumber 1; VNumber 2; VNumber 3]) /\
     lLen "l" s' = Returns (Z.of_nat (length [VNumber 1; VNumber 2; VNumber 3]) - 1) s')
  /\ (1 > Z.of_nat (length [VNumber 1; VNumber 2; VNumber 3]) - 1 ->
      lRemIndex "l" 1 three_elements = Throws (MkError CacheErrors.OutOfIndex) three_elements).
Proof.
  apply (lRemIndex_in_range "l" 1 [VNumber 1; VNumber 2; VNumber 3] three_elements).
  reflexivity.
Defined.

Lemma lPush_on_list (k : string) (values es : list CacheData) (s : State) :
  holds_list k s = Some es ->
  exists l ps, heap s !! l = Some (OArray es ps) /\
    (value <$> data s !! k) = Some (VObject l) /\
    lPush k values s = Returns tt (store_obj l (OArray (es ++ values) ps) s).
Proof.
  intros Hh. apply holds_list_Some in Hh as (d & l & ps & Hd & Hv & Hl & Hi & Hlen).
  exists l, ps. split; [done|]. split; [by rewrite Hd; simpl; rewrite Hv|].
  unfold lPush. rewrite Hd, Hi. unfold Array_push. rewrite Hv, Hl.
  by rewrite with_data_insert_same.
Qed.

(** [lPush] on a List appends the values, in the order given, to the array
    that is there: the entries and the timers are as before, and every key
    whose entry holds the same array, the key itself among them, holds
    the longer List afterwards. *)
Theorem lPush_appends_in_place (a b : string) (values es : list CacheData) (s : State) :
  holds_list a s = Some es ->
  value <$> data s !! b = value <$> data s !! a ->
  exists s', lPush a values s = Returns tt s' /\
    holds_list a s' = Some (es ++ values) /\
    holds_list b s' = Some (es ++ values) /\
    data s' = data s /\ timers s' = timers s.
Proof.
  intros Hh Hb. destruct (lPush_on_list a values es s Hh) as (l & ps & Hl & Ha & He).
  eexists. split; [exact He|].
  assert (forall c, value <$> data s !! c = Some (VObject l) ->
            holds_list c (store_obj l (OArray (es ++ values) ps) s) = Some (es ++ values)) as Hc.
  { intros c Hc. destruct (data s !! c) as [dc|] eqn:Hdc; [|done].
    injection Hc as Hc. by eapply holds_list_store. }
  split; [by apply Hc|]. split; [apply Hc; congruence|]. done.
Qed.

Lemma lPush_appends_in_place_witness :
  exists s', lPush "a" [VNumber 2] shared_array = Returns tt s' /\
    holds_list "a" s' = Some ([VNumber 1] ++ [VNumber 2]) /\
    holds_list "b" s' = Some ([VNumber 1] ++ [VNumber 2]) /\
    data s' = data shared_array /\ timers s' = timers shared_array.
Proof.
  apply (lPush_appends_in_place "a" "b" [VNumber 2] [VNumber 1] shared_array); reflexivity.
Defined.

(** On a List, [lPush] of one value followed by [lPop] gives back the
    state there was. *)
Theorem lPush_then_lPop (k : string) (v : CacheData) (es : list CacheData) (s : State) :
  holds_list k s = Some es ->
  (lPush k [v] ;;; lPop k) s = Returns tt s.
Proof.
  intros Hh. destruct (lPush_on_list k [v] es s Hh) as (l & ps & Hl & Ha & He).
  unfold bind. rewrite He.
  apply holds_list_Some in Hh as (d & l' & ps' & Hd & Hv & Hl' & Hi & Hlen).
  assert (l' = l) as -> by (rewrite Hd in Ha; simpl in Ha; congruence).
  unfold lPop. simpl. rewrite Hd. unfold Array_isArray, Array_pop. rewrite Hv. simpl.
  rewrite list_lookup_insert_eq by (by eapply lookup_lt_Some).
  rewrite store_obj_twice, removelast_last. by rewrite store_obj_id.
Qed.

Lemma lPush_then_lPop_witness :
  (lPush "l" [VNumber 4] ;;; lPop "l") three_elements = Returns tt three_elements.
Proof.
  apply (lPush_then_lPop "l" (VNumber 4) [VNumber 1; VNumber 2; VNumber 3] three_elements).
  reflexivity.
Defined.

(** [lRem] removes every element strictly equal to the one given and
    keeps the others in their order; the ttl and the timer handle of the
    entry and the timers stay.  It stores a new array, at the end of the
    heap, and puts its reference in the entry: the array that was there
    and every other object are not changed and the entry of every other
    key is as it was, so every other key holds what it held, also a key
    whose entry holds the array that was there. *)
Theorem lRem_removes_all_into_a_new_array (k : string) (x : CacheData)
    (es : list CacheData) (s : State) :
  holds_list k s = Some es ->
  exists s', lRem k x s = Returns tt s' /\
    holds_list k s' = Some (List.filter (fun el => negb (StrictEquals el x)) es) /\
    (x ∉ List.filter (fun el => negb (StrictEquals el x)) es) /\
    (forall y, y <> x ->
       (y ∈ (List.filter (fun el => negb (StrictEquals el x)) es) <-> y ∈ es)) /\
    getTTL k s' = Returns (default (-1) (ttl <$> data s !! k)) s' /\
    timers s' = timers s /\
    (forall l o, heap s !! l = Some o -> heap s' !! l = Some o) /\
    (forall k2 es2, k2 <> k -> holds_list k2 s = Some es2 -> holds_list k2 s' = Some es2) /\
    ttl <$> data s' !! k = ttl <$> data s !! k /\
    timeout <$> data s' !! k = timeout <$> data s !! k /\
    value <$> data s' !! k = Some (VObject (length (heap s))) /\
    heap s' = heap s ++ [OArray (List.filter (fun el => negb (StrictEquals el x)) es) ∅] /\
    (forall k2, k2 <> k -> data s' !! k2 = data s !! k2) /\
    _TTL s' = _TTL s.
Proof.
  intros Hh. apply holds_list_Some in Hh as (d & l & ps & Hd & Hv & Hl & Hi & Hlen).
  unfold lRem. rewrite Hd, Hi. simpl. unfold Array_filter_ne. rewrite Hv, Hl.
  eexists. split; [reflexivity|]. simpl.
  split; [|split; [|split; [|split; [|split; [|split; [|split]]]]]].
  - unfold holds_list. simpl. rewrite lookup_insert_eq.
    rewrite lookup_app_r by done. by rewrite Nat.sub_diag.
  - rewrite list_elem_of_In, List.filter_In. intros [_ Hx].
    apply negb_true_iff in Hx. assert (StrictEquals x x = true) by (by apply StrictEquals_eq).
    congruence.
  - intros y Hne. rewrite list_elem_of_In, List.filter_In, <- list_elem_of_In.
    split; [by intros [? _]|]. intros Hy. split; [done|].
    apply negb_true_iff. destruct (StrictEquals y x) eqn:He; [|done].
    by apply StrictEquals_eq in He.
  - unfold getTTL. simpl. by rewrite lookup_insert_eq.
  - done.
  - intros l0 o Hl0. by apply lookup_app_l_Some.
  - intros k2 es2 Hne Hk2. unfold holds_list in *. simpl.
    rewrite lookup_insert_ne by done.
    destruct (data s !! k2) as [[t2 [] h2]|]; try done.
    destruct (heap s !! l0) as [o|] eqn:Hl0; [|done].
    by rewrite (lookup_app_l_Some _ _ _ _ Hl0).
  - rewrite lookup_insert_eq. simpl. repeat split.
    intros k2 Hne. by rewrite lookup_insert_ne.
Qed.

Lemma lRem_removes_all_into_a_new_array_witness :
  exists s', lRem "a" (VNumber 1) shared_array = Returns tt s' /\
    holds_list "a" s' = Some (List.filter (fun el => negb (StrictEquals el (VNumber 1))) [VNumber 1]) /\
    (VNumber 1 ∉ List.filter (fun el => negb (StrictEquals el (VNumber 1))) [VNumber 1]) /\
    (forall y, y <> VNumber 1 ->
       (y ∈ (List.filter (fun el => negb (StrictEquals el (VNumber 1))) [VNumber 1])
        <-> y ∈ [VNumber 1])) /\
    getTTL "a" s' = Returns (default (-1) (ttl <$> data shared_array !! "a")) s' /\
    timers s' = timers shared_array /\
    (forall l o, heap shared_array !! l = Some o -> heap s' !! l = Some o) /\
    (forall k2 es2, k2 <> "a" -> holds_list k2 shared_array = Some es2 ->
       holds_list k2 s' = Some es2) /\
    ttl <$> data s' !! "a" = ttl <$> data shared_array !! "a" /\
    timeout <$> data s' !! "a" = timeout <$> data shared_array !! "a" /\
    value <$> data s' !! "a" = Some (VObject (length (heap shared_array))) /\
    heap s' = heap shared_array ++
                [OArray (List.filter (fun el => negb (StrictEquals el (VNumber 1))) [VNumber 1]) ∅] /\
    (forall k2, k2 <> "a" -> data s' !! k2 = data shared_array !! k2) /\
    _TTL s' = _TTL shared_array.
Proof.
  apply (lRem_removes_all_into_a_new_array "a" (VNumber 1) [VNumber 1] shared_array).
  reflexivity.
Defined.

Example lRem_and_lPop_on_a_shared_array :
  holds_list "b" (state_of (lRem "a" (VNumber 1) shared_array)) = Some [VNumber 1]
  /\ holds_list "a" (state_of (lRem "a" (VNumber 1) shared_array)) = Some []
  /\ holds_list "b" (state_of (lPop "a" shared_array)) = Some []
  /\ holds_list "b" (state_of (lPush "a" [VNumber 2] shared_array)) = Some [VNumber 1; VNumber 2].
Proof. by_evaluation. Qed.

(** ** More on [scan] *)

Lemma wildcard_match_without_star (absorb : ascii -> bool) (p k : string) :
  has_no_star p = true -> (wildcard_match absorb p k = true <-> k = p).
Proof.
  unfold has_no_star. revert k. induction p as [|c p IH]; intros k Hp; simpl in *.
  - destruct k; split; congruence.
  - apply andb_true_iff in Hp as [Hc Hp]. apply negb_true_iff in Hc. rewrite Hc.
    destruct k as [|d k]; [split; congruence|].
    rewrite andb_true_iff, IH by done. rewrite Ascii.eqb_eq. split.
    + by intros [-> ->].
    + by intros [= -> ->].
Qed.

Lemma filter_only (f : string -> bool) (p : string) (l : list string) :
  NoDup l -> (forall k, f k = true <-> k = p) ->
  List.filter f l = if bool_decide (p ∈ l) then [p] else [].
Proof.
  intros Hnd Hf. induction l as [|x l IH]; [done|].
  apply NoDup_cons in Hnd as [Hx Hnd]. specialize (IH Hnd). simpl.
  destruct (f x) eqn:Hfx.
  - apply Hf in Hfx as ->.
    rewrite (bool_decide_eq_false_2 (p ∈ l)) in IH by done. rewrite IH.
    by rewrite bool_decide_eq_true_2 by left.
  - assert (x <> p) as Hne.
    { intros ->. assert (f p = true) as Hfp by (by apply Hf). congruence. }
    rewrite IH. destruct (decide (p ∈ l)) as [Hin|Hnin].
    + rewrite !bool_decide_eq_true_2; [done|by right|done].
    + rewrite !bool_decide_eq_false_2; [done| |done].
      intros [?|?]%elem_of_cons; congruence.
Qed.

(** A pattern without a star is taken literally, whatever other characters
    it has: [scan] returns the key equal to the pattern when it is present
    and nothing otherwise. *)
Theorem scan_without_star (p : string) (s : State) :
  has_no_star p = true ->
  scan p s = Returns (if bool_decide (is_Some (data s !! p)) then [p] else []) s.
Proof.
  intros Hp. rewrite scan_eq. f_equal.
  rewrite (filter_only _ p).
  - destruct (decide (is_Some (data s !! p))) as [Hin|Hnin].
    + rewrite !bool_decide_eq_true_2; [done|done|by apply elem_of_keys].
    + rewrite !bool_decide_eq_false_2; [done|done|by rewrite elem_of_keys].
  - apply NoDup_fst_map_to_list.
  - intros k. by apply wildcard_match_without_star.
Qed.

Lemma scan_without_star_witness :
  scan "users:1" users_and_admins
  = Returns (if bool_decide (is_Some (data users_and_admins !! "users:1"))
             then ["users:1"] else []) users_and_admins.
Proof. apply (scan_without_star "users:1" users_and_admins). reflexivity. Defined.

(** [scan] never throws and does not change the state.  It returns the
    present keys that the pattern matches, each once, where a star of the
    pattern matches any run of characters without a line terminator and
    every other character matches itself. *)
Theorem scan_returns_each_match_once (p : string) (s : State) :
  exists ks, scan p s = Returns ks s /\ NoDup ks /\
    forall k, k ∈ ks <-> is_Some (data s !! k) /\ glob_match_on_a_line p k = true.
Proof. exact (scan_spec p s). Qed.

(** When no key of the store has a line terminator, [scan] returns the
    present keys that the pattern matches as a glob, each once: a star
    matches any substring, every other character matches itself. *)
Theorem scan_is_the_glob_on_one_line_keys (p : string) (s : State) :
  (forall k, is_Some (data s !! k) ->
     forallb (fun c => negb (is_line_terminator c)) (list_ascii_of_string k) = true) ->
  exists ks, scan p s = Returns ks s /\ NoDup ks /\
    forall k, k ∈ ks <-> is_Some (data s !! k) /\ glob_match p k = true.
Proof. exact (scan_glob p s). Qed.

(** The store of two users and an admin, whose keys have no line
    terminator, and the pattern of the users. *)
Lemma scan_is_the_glob_on_one_line_keys_witness :
  exists ks, scan "users:*" users_and_admins = Returns ks users_and_admins /\ NoDup ks /\
    forall k, k ∈ ks <-> is_Some (data users_and_admins !! k) /\ glob_match "users:*" k = true.
Proof.
  apply (scan_is_the_glob_on_one_line_keys "users:*" users_and_admins).
  intros k Hk. apply elem_of_keys in Hk.
  let l := eval vm_compute in ((map_to_list (data users_and_admins)).*1) in
  change ((map_to_list (data users_and_admins)).*1) with l in Hk.
  repeat (apply elem_of_cons in Hk as [->|Hk]; [reflexivity|]).
  by apply elem_of_nil in Hk.
Defined.

(** ** Repeating [sAdd] and [hSet] *)

Lemma foldl_add_member_present (ms old : list CacheData) :
  (forall x, x ∈ ms -> x ∈ old) -> foldl add_member old ms = old.
Proof.
  induction ms as [|x ms IH]; intros H; simpl; [done|].
  assert (add_member old x = old) as ->.
  { unfold add_member. rewrite (proj2 (existsb_SameValueZero x old)); [done|].
    apply H. by left. }
  apply IH. intros y Hy. apply H. by right.
Qed.

Lemma sAdd_on_set (k : string) (ms old : list CacheData) (s : State) :
  holds_set k s = Some old ->
  exists l, heap s !! l = Some (OSet old) /\
    sAdd k ms s = Returns tt (store_obj l (OSet (foldl add_member old ms)) s).
Proof.
  intros Hh. apply holds_set_Some in Hh as (d & l & Hd & Hv & Hl & Hi).
  exists l. split; [done|].
  unfold sAdd. rewrite Hd, Hi, Hv. by rewrite (Set_add_fold _ l old).
Qed.

(** [sAdd] of members that the Set has already changes nothing; so a
    second [sAdd] of the same members, after the first, changes nothing. *)
Theorem sAdd_twice (k : string) (ms : list CacheData) (s : State) :
  (forall old, holds_set k s = Some old -> (forall x, x ∈ ms -> x ∈ old) ->
     sAdd k ms s = Returns tt s)
  /\ exists s', sAdd k ms s = Returns tt s' /\ sAdd k ms s' = Returns tt s'.
Proof.
  assert (forall s0 old, holds_set k s0 = Some old -> (forall x, x ∈ ms -> x ∈ old) ->
            sAdd k ms s0 = Returns tt s0) as Hpresent.
  { intros s0 old Hh Hin. destruct (sAdd_on_set k ms old s0 Hh) as (l & Hl & ->).
    rewrite foldl_add_member_present by done. by rewrite store_obj_id. }
  split; [apply Hpresent|].
  destruct (sAdd_holds k ms s) as (s' & He & Hs').
  exists s'. split; [done|]. eapply Hpresent; [exact Hs'|].
  intros x Hx. apply foldl_add_member_elem_of. by right.
Qed.

(** A second [hSet] of the same fields, after the first, changes nothing,
    whatever ttl it is given: the ttl of [hSet] counts only when the key
    holds no Hashmap yet. *)
Theorem hSet_twice (k : string) (fields : gmap string CacheData) (ttl_arg ttl_arg' : option Z)
    (s : State) :
  exists s', hSet k fields ttl_arg s = Returns tt s' /\
    hSet k fields ttl_arg' s' = Returns tt s'.
Proof.
  assert (exists s' m, hSet k fields ttl_arg s = Returns tt s' /\
            holds_hashmap k s' = Some (fields ∪ m)) as (s' & m & He & Hs').
  { destruct (holds_hashmap k s) as [old|] eqn:Hh.
    - destruct (hSet_on_hashmap k fields old ttl_arg s Hh) as (l & Hl & He & Hs').
      by eexists _, old.
    - destruct (hSet_creates k fields ttl_arg s Hh) as [He Hs'].
      eexists _, ∅. split; [exact He|]. by rewrite (right_id_L ∅ (∪)). }
  exists s'. split; [done|].
  destruct (hSet_on_hashmap k fields _ ttl_arg' s' Hs') as (l & Hl & -> & _).
  rewrite (assoc_L (∪)), (idemp_L (∪)). by rewrite store_obj_id.
Qed.

(** The readers of a Hashmap and [hDel] never throw: under an absent key
    and under a value that is no Hashmap they return nothing, false, 0 or
    no elements, and the state is what it was. *)
Theorem hashmap_readers_degrade (k f : string) (s : State) :
  holds_hashmap k s = None ->
  hGet k f s = Returns None s /\
  hGetAll k s = Returns None s /\
  hExists k f s = Returns false s /\
  hLen k s = Returns 0 s /\
  hKeys k s = Returns [] s /\
  hValues k s = Returns [] s /\
  hDel k f s = Returns tt s.
Proof.
  intros Hh.
  rewrite hGet_holds, hGetAll_holds, hExists_holds, hLen_holds, hKeys_holds, hValues_holds, Hh.
  simpl. rewrite map_to_list_empty. repeat split.
  apply holds_hashmap_None in Hh. unfold hDel.
  destruct (data s !! k) as [d|]; [rewrite Hh|]; done.
Qed.

Lemma hashmap_readers_degrade_witness :
  hGet "l" "x" three_elements = Returns None three_elements /\
  hGetAll "l" three_elements = Returns None three_elements /\
  hExists "l" "x" three_elements = Returns false three_elements /\
  hLen "l" three_elements = Returns 0 three_elements /\
  hKeys "l" three_elements = Returns [] three_elements /\
  hValues "l" three_elements = Returns [] three_elements /\
  hDel "l" "x" three_elements = Returns tt three_elements.
Proof. apply (hashmap_readers_degrade "l" "x" three_elements). reflexivity. Defined.
